(** * Arcan frameserver IPC core and arcan-net front end

    A shallow embedding of the parts of

      - [src/platform/posix/frameserver.c] (shared segment allocation and
        teardown, the socket key verifier, subsegment spawning), and
      - [src/a12/net/net.c] (trace group parsing, the outbound retry loop,
        the keystore subcommand)

    that the specification makes statements about.  C strings are [string]s
    (the bytes before the terminating NUL), raw bytes are [Z] in [0, 256),
    and every call that leaves the process (system calls, calls into other
    translation units) is recorded in a trace; what such a call returns is an
    input of the model. *)

From Stdlib Require Import ZArith Lia Ascii.
From stdpp Require Import base tactics option list sets strings.

Local Open Scope Z_scope.

(** ** C strings *)

(** [s[i] = c] on a buffer that holds the string [s].  The call sites below
    only store inside the string; a store at or past the terminator writes
    outside of what the model tracks and is left without effect here. *)
Fixpoint str_store (s : string) (i : nat) (c : ascii) : string :=
  match s, i with
  | EmptyString, _ => EmptyString
  | String _ t, O => String c t
  | String a t, S j => String a (str_store t j c)
  end.

Definition strlen (s : string) : nat := String.length s.

(** [work[strlen(work) - 1] = c], the statement both [shmalloc] and
    [arcan_frameserver_dropshared] repeat.  For the empty string the index
    wraps around to [SIZE_MAX] in C (undefined behaviour); [strlen work - 1]
    is [0] on [nat] and [str_store] then leaves the empty string alone. *)
Definition store_last (work : string) (c : ascii) : string :=
  str_store work (strlen work - 1) c.

(** The string without its last character. *)
Fixpoint str_init (s : string) : string :=
  match s with
  | EmptyString => EmptyString
  | String a EmptyString => EmptyString
  | String a t => String a (str_init t)
  end.

(** The C view of a character buffer: the characters before the first NUL. *)
Fixpoint c_str (s : string) : string :=
  match s with
  | EmptyString => EmptyString
  | String a t => if Ascii.eqb a Ascii.zero then EmptyString else String a (c_str t)
  end.

(** First character of a buffer ([s[0]]); the terminator for the empty string. *)
Definition str_head (s : string) : ascii :=
  match s with
  | EmptyString => Ascii.zero
  | String a _ => a
  end.

(** [snprintf(dst, size, "%s", s)]: at most [size - 1] characters are kept. *)
Fixpoint str_take (n : nat) (s : string) : string :=
  match n, s with
  | O, _ => EmptyString
  | _, EmptyString => EmptyString
  | S m, String a t => String a (str_take m t)
  end.

(** ** platform/posix/frameserver.c: data *)

(** Compile-time constants that come from headers outside of the two
    translation units ([arcan_shmif.h], [arcan_general.h], [sys/un.h]).  They
    are parameters of every definition that mentions them. *)
Record shmif_consts := {
  ARCAN_SHMPAGE_START_SZ : Z;
  ARCAN_SHMPAGE_MAXW : Z;
  ARCAN_SHMPAGE_MAXH : Z;
  ARCAN_SHM_PREFIX : string;      (* may start with NUL: abstract namespace *)
  ARCAN_SHM_UMASK : Z;
  ARCAN_VERSION_MAJOR : Z;
  ARCAN_VERSION_MINOR : Z;
  PP_SHMPAGE_SHMKEYLIM : nat;
  sun_path_size : nat;            (* sizeof(addr.sun_path) *)
  target_message_size : nat;      (* elements of keyev.data.target.message *)
  on_linux : bool                 (* #ifdef __linux *)
}.

(** The fields of [struct arcan_shmif_page] that frameserver.c writes. *)
Record arcan_shmif_page := {
  dms : bool;
  parent : Z;
  major : Z;
  minor : Z;
  segment_size : Z;
  cookie : Z;
  w : Z;
  h : Z
}.

(** [memset(shmpage, 0, shmsize)] *)
Definition zero_page : arcan_shmif_page :=
  {| dms := false; parent := 0; major := 0; minor := 0;
     segment_size := 0; cookie := 0; w := 0; h := 0 |}.

Inductive event_category := EVENT_TARGET | EVENT_EXTERNAL.

#[global] Instance event_category_eq_dec : EqDecision event_category.
Proof. solve_decision. Defined.

Inductive target_command := TARGET_COMMAND_FDTRANSFER | TARGET_COMMAND_NEWSEGMENT.

#[global] Instance target_command_eq_dec : EqDecision target_command.
Proof. solve_decision. Defined.

(** [arcan_event] as far as the two target commands built here fill it:
    [data.target.ioevs[0].iv], [data.target.ioevs[1].iv] and
    [data.target.message]; a designated initialiser zeroes the rest. *)
Record arcan_event := {
  category : event_category;
  kind : target_command;
  ioev0 : Z;
  ioev1 : Z;
  message : string
}.

Inductive segid_t := SEGID_UNKNOWN | SEGID_ENCODER.

(** Which frame callback the video object of a record currently has. *)
Inductive ffunc := ff_socketpoll | ff_socketverify | ff_emptyframe.

#[global] Instance ffunc_eq_dec : EqDecision ffunc.
Proof. solve_decision. Defined.

Inductive arcan_ffunc_cmd := FFUNC_POLL | FFUNC_DESTROY | FFUNC_TICK.

(** Calls that leave the translation unit, in program order. *)
Inductive call :=
  | c_findshmkey
  | c_shm_unlink (name : string)
  | c_sem_open (name : string)
  | c_sem_unlink (name : string)
  | c_dropsemaphores_keyed (work : string)
  | c_munmap
  | c_socket
  | c_fcntl_cloexec (fd : Z)
  | c_fcntl_nonblock (fd : Z)
  | c_close (fd : Z)
  | c_unlink (path : string)
  | c_bind (fd : Z) (path : string)
  | c_fchmod (fd : Z) (mode : Z)
  | c_listen (fd : Z) (backlog : Z)
  | c_ftruncate (fd : Z) (sz : Z)
  | c_mmap (fd : Z) (sz : Z)
  | c_free_work
  | c_mem_free_key
  | c_warning
  | c_poll (fd : Z)
  | c_read (fd : Z)
  | c_write (fd : Z) (data : list Z)
  | c_frameserver_alloc
  | c_frameserver_free
  | c_video_addfobject (cons_w cons_h : Z)
  | c_video_alterfeed (f : ffunc)
  | c_audio_feed
  | c_socketpair
  | c_pushhandle (fd sock : Z)
  | c_event_enqueue (ev : arcan_event).

Definition BROKEN_PROCESS_HANDLE : Z := -1.

(** [shm_handle]: the [shm] member of a record. *)
Record shm_handle := {
  key : string;
  shmsize : Z;
  handle : Z;
  ptr : option arcan_shmif_page
}.

(** The [flags] member. *)
Record fsrv_flags := {
  alive : bool;
  pbo : bool;
  subsegment : bool;
  socksig : bool
}.

(** [arcan_frameserver], restricted to the members the modelled functions
    read or write.  [feed] stands for the callback registered on the video
    object of the record, [has_audio] for an attached audio feed, and [freed]
    records that [arcan_frameserver_free] ran on the record. *)
Record arcan_frameserver := {
  shm : shm_handle;
  vsync : option string;
  async : option string;
  esync : option string;
  sockout_fd : Z;
  sockaddr : option string;
  clientkey : list Z;
  sockinbuf : list Z;
  sockrofs : nat;
  child : Z;
  flags : fsrv_flags;
  segid : segid_t;
  source : option string;
  has_audio : bool;
  outqueue : list arcan_event;
  feed : ffunc;
  freed : bool
}.

(** Member assignment, one function per member that is assigned. *)
Definition set_shm (v : shm_handle) (r : arcan_frameserver) : arcan_frameserver :=
  {| shm := v; vsync := vsync r; async := async r; esync := esync r;
     sockout_fd := sockout_fd r; sockaddr := sockaddr r;
     clientkey := clientkey r; sockinbuf := sockinbuf r;
     sockrofs := sockrofs r; child := child r; flags := flags r;
     segid := segid r; source := source r; has_audio := has_audio r;
     outqueue := outqueue r; feed := feed r; freed := freed r |}.

Definition set_vsync (v : option string) (r : arcan_frameserver) : arcan_frameserver :=
  {| shm := shm r; vsync := v; async := async r; esync := esync r;
     sockout_fd := sockout_fd r; sockaddr := sockaddr r;
     clientkey := clientkey r; sockinbuf := sockinbuf r;
     sockrofs := sockrofs r; child := child r; flags := flags r;
     segid := segid r; source := source r; has_audio := has_audio r;
     outqueue := outqueue r; feed := feed r; freed := freed r |}.

Definition set_async (v : option string) (r : arcan_frameserver) : arcan_frameserver :=
  {| shm := shm r; vsync := vsync r; async := v; esync := esync r;
     sockout_fd := sockout_fd r; sockaddr := sockaddr r;
     clientkey := clientkey r; sockinbuf := sockinbuf r;
     sockrofs := sockrofs r; child := child r; flags := flags r;
     segid := segid r; source := source r; has_audio := has_audio r;
     outqueue := outqueue r; feed := feed r; freed := freed r |}.

Definition set_esync (v : option string) (r : arcan_frameserver) : arcan_frameserver :=
  {| shm := shm r; vsync := vsync r; async := async r; esync := v;
     sockout_fd := sockout_fd r; sockaddr := sockaddr r;
     clientkey := clientkey r; sockinbuf := sockinbuf r;
     sockrofs := sockrofs r; child := child r; flags := flags r;
     segid := segid r; source := source r; has_audio := has_audio r;
     outqueue := outqueue r; feed := feed r; freed := freed r |}.

Definition set_sockout_fd (v : Z) (r : arcan_frameserver) : arcan_frameserver :=
  {| shm := shm r; vsync := vsync r; async := async r; esync := esync r;
     sockout_fd := v; sockaddr := sockaddr r; clientkey := clientkey r;
     sockinbuf := sockinbuf r; sockrofs := sockrofs r; child := child r;
     flags := flags r; segid := segid r; source := source r;
     has_audio := has_audio r; outqueue := outqueue r; feed := feed r;
     freed := freed r |}.

Definition set_sockaddr (v : option string) (r : arcan_frameserver) : arcan_frameserver :=
  {| shm := shm r; vsync := vsync r; async := async r; esync := esync r;
     sockout_fd := sockout_fd r; sockaddr := v; clientkey := clientkey r;
     sockinbuf := sockinbuf r; sockrofs := sockrofs r; child := child r;
     flags := flags r; segid := segid r; source := source r;
     has_audio := has_audio r; outqueue := outqueue r; feed := feed r;
     freed := freed r |}.

Definition set_sockinbuf (v : list Z) (r : arcan_frameserver) : arcan_frameserver :=
  {| shm := shm r; vsync := vsync r; async := async r; esync := esync r;
     sockout_fd := sockout_fd r; sockaddr := sockaddr r;
     clientkey := clientkey r; sockinbuf := v; sockrofs := sockrofs r;
     child := child r; flags := flags r; segid := segid r;
     source := source r; has_audio := has_audio r; outqueue := outqueue r;
     feed := feed r; freed := freed r |}.

Definition set_sockrofs (v : nat) (r : arcan_frameserver) : arcan_frameserver :=
  {| shm := shm r; vsync := vsync r; async := async r; esync := esync r;
     sockout_fd := sockout_fd r; sockaddr := sockaddr r;
     clientkey := clientkey r; sockinbuf := sockinbuf r; sockrofs := v;
     child := child r; flags := flags r; segid := segid r;
     source := source r; has_audio := has_audio r; outqueue := outqueue r;
     feed := feed r; freed := freed r |}.

Definition set_child (v : Z) (r : arcan_frameserver) : arcan_frameserver :=
  {| shm := shm r; vsync := vsync r; async := async r; esync := esync r;
     sockout_fd := sockout_fd r; sockaddr := sockaddr r;
     clientkey := clientkey r; sockinbuf := sockinbuf r;
     sockrofs := sockrofs r; child := v; flags := flags r; segid := segid r;
     source := source r; has_audio := has_audio r; outqueue := outqueue r;
     feed := feed r; freed := freed r |}.

Definition set_flags (v : fsrv_flags) (r : arcan_frameserver) : arcan_frameserver :=
  {| shm := shm r; vsync := vsync r; async := async r; esync := esync r;
     sockout_fd := sockout_fd r; sockaddr := sockaddr r;
     clientkey := clientkey r; sockinbuf := sockinbuf r;
     sockrofs := sockrofs r; child := child r; flags := v; segid := segid r;
     source := source r; has_audio := has_audio r; outqueue := outqueue r;
     feed := feed r; freed := freed r |}.

Definition set_segid (v : segid_t) (r : arcan_frameserver) : arcan_frameserver :=
  {| shm := shm r; vsync := vsync r; async := async r; esync := esync r;
     sockout_fd := sockout_fd r; sockaddr := sockaddr r;
     clientkey := clientkey r; sockinbuf := sockinbuf r;
     sockrofs := sockrofs r; child := child r; flags := flags r; segid := v;
     source := source r; has_audio := has_audio r; outqueue := outqueue r;
     feed := feed r; freed := freed r |}.

Definition set_source (v : option string) (r : arcan_frameserver) : arcan_frameserver :=
  {| shm := shm r; vsync := vsync r; async := async r; esync := esync r;
     sockout_fd := sockout_fd r; sockaddr := sockaddr r;
     clientkey := clientkey r; sockinbuf := sockinbuf r;
     sockrofs := sockrofs r; child := child r; flags := flags r;
     segid := segid r; source := v; has_audio := has_audio r;
     outqueue := outqueue r; feed := feed r; freed := freed r |}.

Definition set_has_audio (v : bool) (r : arcan_frameserver) : arcan_frameserver :=
  {| shm := shm r; vsync := vsync r; async := async r; esync := esync r;
     sockout_fd := sockout_fd r; sockaddr := sockaddr r;
     clientkey := clientkey r; sockinbuf := sockinbuf r;
     sockrofs := sockrofs r; child := child r; flags := flags r;
     segid := segid r; source := source r; has_audio := v;
     outqueue := outqueue r; feed := feed r; freed := freed r |}.

Definition set_outqueue (v : list arcan_event) (r : arcan_frameserver) : arcan_frameserver :=
  {| shm := shm r; vsync := vsync r; async := async r; esync := esync r;
     sockout_fd := sockout_fd r; sockaddr := sockaddr r;
     clientkey := clientkey r; sockinbuf := sockinbuf r;
     sockrofs := sockrofs r; child := child r; flags := flags r;
     segid := segid r; source := source r; has_audio := has_audio r;
     outqueue := v; feed := feed r; freed := freed r |}.

Definition set_feed (v : ffunc) (r : arcan_frameserver) : arcan_frameserver :=
  {| shm := shm r; vsync := vsync r; async := async r; esync := esync r;
     sockout_fd := sockout_fd r; sockaddr := sockaddr r;
     clientkey := clientkey r; sockinbuf := sockinbuf r;
     sockrofs := sockrofs r; child := child r; flags := flags r;
     segid := segid r; source := source r; has_audio := has_audio r;
     outqueue := outqueue r; feed := v; freed := freed r |}.

Definition set_freed (v : bool) (r : arcan_frameserver) : arcan_frameserver :=
  {| shm := shm r; vsync := vsync r; async := async r; esync := esync r;
     sockout_fd := sockout_fd r; sockaddr := sockaddr r;
     clientkey := clientkey r; sockinbuf := sockinbuf r;
     sockrofs := sockrofs r; child := child r; flags := flags r;
     segid := segid r; source := source r; has_audio := has_audio r;
     outqueue := outqueue r; feed := feed r; freed := v |}.

(** A record that is zero-filled as far as the members above go, with both
    key buffers of the size of the key limit. *)
Definition fresh_frameserver (K : shmif_consts) : arcan_frameserver :=
  {| shm := {| key := EmptyString; shmsize := 0; handle := 0; ptr := None |};
     vsync := None; async := None; esync := None;
     sockout_fd := 0; sockaddr := None;
     clientkey := replicate (PP_SHMPAGE_SHMKEYLIM K) 0;
     sockinbuf := replicate (PP_SHMPAGE_SHMKEYLIM K) 0;
     sockrofs := 0%nat; child := 0;
     flags := {| alive := false; pbo := false; subsegment := false;
                 socksig := false |};
     segid := SEGID_UNKNOWN; source := None;
     has_audio := false; outqueue := []; feed := ff_emptyframe;
     freed := false |}.

(** What the operating system answers during one [shmalloc]. *)
Record shmalloc_os := {
  os_shmkey : string;            (* arcan_findshmkey: the key ... *)
  os_shmfd : Z;                  (* ... and the descriptor of the object *)
  os_socket : Z;                 (* socket(): descriptor or -1 *)
  os_home : option string;       (* getenv("HOME") *)
  os_bind : Z;                   (* bind(): 0 on success *)
  os_ftruncate : Z;              (* ftruncate(): -1 on failure *)
  os_mmap : bool;                (* false: MAP_FAILED *)
  os_getpid : Z;
  os_cookie : Z                  (* arcan_shmif_cookie() *)
}.

(** ** [shmalloc] and [arcan_frameserver_dropshared] *)

(** Lines 264-273 of frameserver.c: the key is copied into [work], whose last
    character is overwritten three times in a row, each time followed by a
    [sem_open] of the buffer.  The result is the final [work] and the three
    names in the order they are opened. *)
Definition shmalloc_semnames (shmkey : string) : string * (string * string * string) :=
  let work := shmkey in
  let work := store_last work "v" in
  let nv := work in
  let work := store_last work "a" in
  let na := work in
  let work := store_last work "e" in
  let ne := work in
  (work, (nv, na, ne)).

(** The [if (namedsocket)] block.  [inl tr] is a jump to [fail] after the
    calls [tr]; [inr (ctx, tr)] falls through to the [ftruncate]. *)
Definition shmalloc_listen (K : shmif_consts) (os : shmalloc_os)
    (ctx : arcan_frameserver) (optkey : option string)
    : list call + arcan_frameserver * list call :=
  let lim := (sun_path_size K - 1)%nat in
  let pref_sz := strlen (ARCAN_SHM_PREFIX K) in
  match optkey with
  | None => inl [c_warning]
  | Some optkey =>
    let optlen := strlen optkey in
    if bool_decide (optlen = 0%nat) || bool_decide (lim < pref_sz + optlen)%nat
    then inl [c_warning]
    else
      let fd := os_socket os in
      if bool_decide (fd = -1) then inl [c_socket; c_warning]
      else
        let opened := [c_socket; c_fcntl_cloexec fd] in
        (* unlink, bind, fchmod, listen on the finished [addr.sun_path] *)
        let finish (sun_path : string) :=
          let tr := opened ++ [c_unlink (c_str sun_path); c_bind fd sun_path] in
          if bool_decide (os_bind os ≠ 0)
          then inl (tr ++ [c_warning; c_close fd])
          else
            inr (set_sockaddr (Some (c_str sun_path)) (set_sockout_fd fd ctx),
                 tr ++ [c_fchmod fd (ARCAN_SHM_UMASK K); c_listen fd 1]) in
        if on_linux K && Ascii.eqb (str_head (ARCAN_SHM_PREFIX K)) Ascii.zero
        then finish (ARCAN_SHM_PREFIX K +:+ optkey)
        else if negb (Ascii.eqb (str_head (ARCAN_SHM_PREFIX K)) "/")
        then
          match os_home os with
          | None => inl (opened ++ [c_warning; c_close fd])
          | Some auxp =>
            let envlen := strlen auxp in
            if bool_decide (lim < envlen + optlen + pref_sz)%nat
            then inl (opened ++ [c_warning; c_close fd])
            else finish (auxp +:+ "/" +:+ ARCAN_SHM_PREFIX K +:+ optkey)
          end
        else finish (ARCAN_SHM_PREFIX K +:+ optkey)
  end.

(** [static bool shmalloc(ctx, namedsocket, optkey)]. *)
Definition shmalloc (K : shmif_consts) (os : shmalloc_os)
    (ctx : arcan_frameserver) (namedsocket : bool) (optkey : option string)
    : bool * arcan_frameserver * list call :=
  let sz := ARCAN_SHMPAGE_START_SZ K in
  let shmfd := os_shmfd os in
  let ctx := set_shm {| key := os_shmkey os; shmsize := sz;
                        handle := handle (shm ctx); ptr := ptr (shm ctx) |} ctx in
  let '(work, (nv, na, ne)) := shmalloc_semnames (key (shm ctx)) in
  let ctx := set_esync (Some ne) (set_async (Some na) (set_vsync (Some nv) ctx)) in
  let tr := [c_findshmkey; c_sem_open nv; c_sem_open na; c_sem_open ne] in
  (* the code at the label [fail] *)
  let fail (ctx : arcan_frameserver) (tr : list call) :=
    (false, ctx, tr ++ [c_dropsemaphores_keyed work; c_free_work]) in
  let listened :=
    if namedsocket then shmalloc_listen K os ctx optkey else inr (ctx, []) in
  match listened with
  | inl tr' => fail ctx (tr ++ tr')
  | inr (ctx, tr') =>
    let tr := tr ++ tr' ++ [c_ftruncate shmfd sz] in
    if bool_decide (os_ftruncate os = -1)
    then (false, ctx, tr ++ [c_warning])
    else
      let ctx := set_shm {| key := key (shm ctx); shmsize := shmsize (shm ctx);
                            handle := shmfd; ptr := ptr (shm ctx) |} ctx in
      let tr := tr ++ [c_mmap shmfd sz] in
      if negb (os_mmap os)
      then fail ctx (tr ++ [c_warning])
      else
        let shmpage :=
          {| dms := true; parent := os_getpid os;
             major := ARCAN_VERSION_MAJOR K; minor := ARCAN_VERSION_MINOR K;
             segment_size := sz; cookie := os_cookie os;
             w := w zero_page; h := h zero_page |} in
        let ctx := set_shm {| key := key (shm ctx); shmsize := shmsize (shm ctx);
                              handle := handle (shm ctx); ptr := Some shmpage |} ctx in
        (true, ctx, tr ++ [c_free_work])
  end.

(** [void arcan_frameserver_dropshared(arcan_frameserver* src)]; [munmap_rc]
    is what [munmap] returns when the page is mapped.  The record is not
    changed (its key is released at the end), so the calls are the result. *)
Definition arcan_frameserver_dropshared (src : option arcan_frameserver)
    (munmap_rc : Z) : list call :=
  match src with
  | None => []
  | Some src =>
    let unmap :=
      match ptr (shm src) with
      | Some _ => c_munmap :: (if bool_decide (munmap_rc = -1) then [c_warning] else [])
      | None => []
      end in
    let work := key (shm src) in
    let work := store_last work "v" in
    let uv := c_sem_unlink work in
    let work := store_last work "a" in
    let ua := c_sem_unlink work in
    let work := store_last work "e" in
    let ue := c_sem_unlink work in
    unmap ++ [c_shm_unlink (key (shm src)); uv; ua; ue; c_free_work; c_mem_free_key]
  end.

(** Names passed to [sem_open], [sem_unlink] and [shm_unlink] in a trace. *)
Definition sem_opened (tr : list call) : list string :=
  omap (λ c, match c with c_sem_open n => Some n | _ => None end) tr.

Definition sem_unlinked (tr : list call) : list string :=
  omap (λ c, match c with c_sem_unlink n => Some n | _ => None end) tr.

Definition shm_unlinked (tr : list call) : list string :=
  omap (λ c, match c with c_shm_unlink n => Some n | _ => None end) tr.

Definition closed_fds (tr : list call) : list Z :=
  omap (λ c, match c with c_close fd => Some fd | _ => None end) tr.

(** ** The key verifier: [memcmp_nodep], [fd_avail], [socketverify] *)

(** [p[i]] on a byte buffer.  A read past the end of the buffer is outside
    of what the model tracks and gives 0; the statements about the comparison
    keep the length within both buffers. *)
Definition byte_at (buf : list Z) (i : nat) : Z := default 0 (buf !! i).

(** The [while (n--)] loop of [memcmp_nodep], with [i] the distance both
    pointers have advanced.  [diffv] is a [uint8_t], so the value stored back
    is reduced to eight bits.  Next to [diffv] the loop returns the offsets it
    dereferenced, in order. *)
Fixpoint memcmp_nodep_loop (s1 s2 : list Z) (i n : nat) (diffv : Z)
    : Z * list nat :=
  match n with
  | O => (diffv, [])
  | S n' =>
    let diffv := Z.land (Z.lor diffv (Z.lxor (byte_at s1 i) (byte_at s2 i))) 255 in
    let '(d, reads) := memcmp_nodep_loop s1 s2 (S i) n' diffv in
    (d, i :: reads)
  end.

(** [static bool memcmp_nodep(const void* s1, const void* s2, size_t n)] *)
Definition memcmp_nodep (s1 s2 : list Z) (n : nat) : bool :=
  negb (negb (bool_decide ((memcmp_nodep_loop s1 s2 0 n 0).1 = 0))).

(** The offsets [memcmp_nodep] reads from both buffers. *)
Definition memcmp_nodep_reads (s1 s2 : list Z) (n : nat) : list nat :=
  (memcmp_nodep_loop s1 s2 0 n 0).2.

(** What [poll] reports for the single descriptor of [fd_avail]. *)
Record poll_result := {
  poll_sv : Z;                (* return value *)
  poll_eintr : bool;          (* errno == EINTR, read when sv is -1 *)
  poll_hangup : bool          (* revents & (POLLERR | POLLHUP | POLLNVAL) *)
}.

(** [static bool fd_avail(int fd, bool* term)]: the result and [*term]. *)
Definition fd_avail (p : poll_result) : bool * bool :=
  if bool_decide (poll_sv p = -1) then (false, negb (poll_eintr p))
  else if bool_decide (poll_sv p = 0) then (false, false)
  else if poll_hangup p then (false, true)
  else (true, false).

(** One [write] on the socket: it fails with an [errno] that is or is not
    one of EAGAIN, EWOULDBLOCK, EINTR, or it takes the first [rc] bytes. *)
Inductive write_result :=
  | write_err (retryable : bool)
  | write_ok (rc : nat).

(** What the socket does during one call of [socketverify]. *)
Record verify_io := {
  io_poll : poll_result;
  io_read : option Z;           (* the byte [read] stores, if it stores one *)
  io_writes : list write_result (* consecutive [write] results *)
}.

Definition byte_of_ascii (a : ascii) : Z := Z.of_N (N_of_ascii a).

Fixpoint bytes_of_string (s : string) : list Z :=
  match s with
  | EmptyString => []
  | String a t => byte_of_ascii a :: bytes_of_string t
  end.

Definition newline : Z := 10.

(** [memset(buf + ofs, 0, n)] *)
Definition memset_zero (buf : list Z) (ofs n : nat) : list Z :=
  take ofs buf ++ replicate n 0 ++ drop (ofs + n) buf.

(** [snprintf(buf, size, "%s\n", s)]: the buffer afterwards, and the return
    value, which is the untruncated length. *)
Definition snprintf_line (buf : list Z) (size : nat) (s : string)
    : list Z * nat :=
  let full := bytes_of_string s ++ [newline] in
  match size with
  | O => (buf, length full)
  | S m =>
    let out := take m full in
    (out ++ [0] ++ drop (S (length out)) buf, length full)
  end.

(** Modelled from the spec: [arcan_frameserver_free], which is defined outside
    of the two files.  The spec's destruction sequence ends the life of the
    record; here it leaves the record marked dead and freed, and the call
    itself goes into the trace. *)
Definition frameserver_free (tgt : arcan_frameserver) : arcan_frameserver :=
  set_freed true
    (set_flags {| alive := false; pbo := pbo (flags tgt);
                  subsegment := subsegment (flags tgt);
                  socksig := socksig (flags tgt) |} tgt).

(** The [while (rtc && ntw)] loop below [send_key].  A [write] that keeps
    returning 0 keeps the loop running, so the model asks for the results of
    the calls up front and yields [None] when they run out inside the loop.
    [write] never takes more than it is offered, [rc <= ntw]. *)
Fixpoint send_key_loop (fd : Z) (buf : list Z) (writes : list write_result)
    (rtc : Z) (ntw wofs : nat) : option (Z * list call) :=
  if bool_decide (rtc ≠ 0) && bool_decide (ntw ≠ 0%nat) then
    match writes with
    | [] => None
    | write_err retryable :: writes' =>
      let rtc := if retryable then rtc - 1 else 0 in
      '(rtc, tr) ← send_key_loop fd buf writes' rtc ntw wofs;
      Some (rtc, c_write fd [] :: tr)
    | write_ok rc :: writes' =>
      let sent := take rc (take ntw (drop wofs buf)) in
      '(rtc, tr) ← send_key_loop fd buf writes' rtc (ntw - rc) (wofs + rc);
      Some (rtc, c_write fd sent :: tr)
    end
  else Some (rtc, []).

(** The code from the label [send_key] to the end of [socketverify]. *)
Definition send_key (K : shmif_consts) (io : verify_io)
    (tgt : arcan_frameserver) : option (arcan_frameserver * list call) :=
  let '(buf, ntw) :=
    snprintf_line (sockinbuf tgt) (PP_SHMPAGE_SHMKEYLIM K) (key (shm tgt)) in
  let tgt := set_sockinbuf buf tgt in
  '(rtc, tr) ← send_key_loop (sockout_fd tgt) buf (io_writes io) 10 ntw 0;
  let tr := c_warning :: c_fcntl_nonblock (sockout_fd tgt) :: tr in
  if bool_decide (rtc ≤ 0)
  then Some (frameserver_free tgt, tr ++ [c_warning; c_frameserver_free])
  else Some (set_has_audio true (set_feed ff_emptyframe tgt),
             tr ++ [c_video_alterfeed ff_emptyframe; c_audio_feed]).

(** [static enum arcan_ffunc_rv socketverify(cmd, ..., state)] with
    [tgt = state.ptr].  Every path returns [FFUNC_RV_NOFRAME], so the result
    is the record afterwards and the calls made.  [ch] starts out as the
    newline and [read] is not checked: a [read] that stores nothing leaves the
    newline in place. *)
Definition socketverify (K : shmif_consts) (cmd : arcan_ffunc_cmd)
    (io : verify_io) (tgt : arcan_frameserver)
    : option (arcan_frameserver * list call) :=
  let lim := PP_SHMPAGE_SHMKEYLIM K in
  match cmd with
  | FFUNC_POLL =>
    if bool_decide (byte_at (clientkey tgt) 0 = 0) then send_key K io tgt
    else
      let fd := sockout_fd tgt in
      match fd_avail (io_poll io) with
      | (false, term) =>
        if term
        then Some (frameserver_free tgt, [c_poll fd; c_frameserver_free])
        else Some (tgt, [c_poll fd])
      | (true, _) =>
        let ch := default newline (io_read io) in
        let tr := [c_poll fd; c_read fd] in
        (* the statement after the if/else on [ch] *)
        let check_limit (tgt : arcan_frameserver) (tr : list call) :=
          if bool_decide (lim ≤ sockrofs tgt)%nat
          then Some (frameserver_free tgt, tr ++ [c_warning; c_frameserver_free])
          else Some (tgt, tr) in
        if bool_decide (ch = newline) then
          let tgt :=
            set_sockinbuf
              (memset_zero (sockinbuf tgt) (sockrofs tgt) (lim - sockrofs tgt))
              tgt in
          if memcmp_nodep (sockinbuf tgt) (clientkey tgt) lim
          then '(tgt, tr') ← send_key K io tgt; Some (tgt, tr ++ tr')
          else check_limit (frameserver_free tgt)
                           (tr ++ [c_warning; c_frameserver_free])
        else
          let tgt :=
            set_sockrofs (S (sockrofs tgt))
              (set_sockinbuf (<[sockrofs tgt := ch]> (sockinbuf tgt)) tgt) in
          check_limit tgt tr
      end
  | FFUNC_DESTROY =>
    match sockaddr tgt with
    | Some path => Some (tgt, [c_unlink path])
    | None => Some (tgt, [])
    end
  | _ => Some (tgt, [])
  end.

(** Modelled from the spec: the feed-state driver of the host, which is
    outside of the two files.  It invokes the callback registered on the
    video object once per tick; [verify_run] does so with [FFUNC_POLL] for as
    long as that callback is [socketverify] and the record has not been
    destroyed. *)
Fixpoint verify_run (K : shmif_consts) (ios : list verify_io)
    (tgt : arcan_frameserver) : option (arcan_frameserver * list call) :=
  match ios with
  | [] => Some (tgt, [])
  | io :: ios' =>
    if freed tgt || negb (bool_decide (feed tgt = ff_socketverify))
    then Some (tgt, [])
    else
      '(tgt, tr) ← socketverify K FFUNC_POLL io tgt;
      '(tgt, tr') ← verify_run K ios' tgt;
      Some (tgt, tr ++ tr')
  end.

(** The payloads of the [write] calls of a trace. *)
Definition written (tr : list call) : list (list Z) :=
  omap (λ c, match c with c_write _ d => Some d | _ => None end) tr.

(** A socket on which a byte is ready to be read. *)
Definition io_byte (b : Z) : verify_io :=
  {| io_poll := {| poll_sv := 1; poll_eintr := false; poll_hangup := false |};
     io_read := Some b; io_writes := [] |}.

(** ** [arcan_frameserver_pushfd] and [arcan_frameserver_spawn_subsegment] *)

Inductive arcan_errc := ARCAN_OK | ARCAN_ERRC_BAD_ARGUMENT.

(** Modelled from the spec: [arcan_event_enqueue], defined outside of the two
    files.  The spec has the producer observe the events of the outbound
    queue in enqueue order, so the queue is the list of events with the
    latest one last. *)
Definition arcan_event_enqueue (q : list arcan_event) (ev : arcan_event)
    : list arcan_event :=
  q ++ [ev].

(** Modelled from the spec: [arcan_frameserver_pushevent], defined outside of
    the two files; it places the event on the outbound queue of the record. *)
Definition arcan_frameserver_pushevent (fsrv : arcan_frameserver)
    (ev : arcan_event) : arcan_frameserver * list call :=
  (set_outqueue (arcan_event_enqueue (outqueue fsrv) ev) fsrv,
   [c_event_enqueue ev]).

(** [arcan_errc arcan_frameserver_pushfd(arcan_frameserver* fsrv, int fd)];
    [pushhandle_ok] is the result of [arcan_pushhandle]. *)
Definition arcan_frameserver_pushfd (pushhandle_ok : bool)
    (fsrv : option arcan_frameserver) (fd : Z)
    : arcan_errc * option arcan_frameserver * list call :=
  match fsrv with
  | None => (ARCAN_ERRC_BAD_ARGUMENT, None, [])
  | Some f =>
    if bool_decide (fd = 0) then (ARCAN_ERRC_BAD_ARGUMENT, Some f, [])
    else if pushhandle_ok then
      let ev := {| category := EVENT_TARGET; kind := TARGET_COMMAND_FDTRANSFER;
                   ioev0 := 0; ioev1 := 0; message := EmptyString |} in
      let '(f, tr) := arcan_frameserver_pushevent f ev in
      (ARCAN_OK, Some f, c_pushhandle fd (sockout_fd f) :: tr)
    else
      (ARCAN_ERRC_BAD_ARGUMENT, Some f,
       [c_pushhandle fd (sockout_fd f); c_warning])
  end.

(** What the rest of the engine answers during one spawn. *)
Record spawn_os := {
  sp_alloc : arcan_frameserver;    (* what arcan_frameserver_alloc() returns *)
  sp_shm : shmalloc_os;
  sp_addfobject : bool;            (* false: arcan_video_addfobject gave ARCAN_EID *)
  sp_socketpair : option (Z * Z);  (* None: socketpair() < 0 *)
  sp_pushhandle : bool             (* arcan_pushhandle *)
}.

(** Lines 422-423: [hint < 0 || hint > max ? 32 : hint]. *)
Definition clamp_hint (hint max : Z) : Z :=
  if bool_decide (hint < 0) || bool_decide (hint > max) then 32 else hint.

(** [arcan_frameserver_spawn_subsegment(ctx, input, hintw, hinth, tag)].
    The result is the new record ([None] for [NULL]), the parent afterwards
    and the calls made. *)
Definition arcan_frameserver_spawn_subsegment (K : shmif_consts)
    (os : spawn_os) (ctx : option arcan_frameserver) (input : bool)
    (hintw hinth tag : Z)
    : option arcan_frameserver * option arcan_frameserver * list call :=
  match ctx with
  | None => (None, None, [])
  | Some ctx =>
    if negb (alive (flags ctx)) then (None, Some ctx, [])
    else
      let newseg := sp_alloc os in
      match shmalloc K (sp_shm os) newseg false None with
      | (false, newseg, tr) =>
        (None, Some ctx, c_frameserver_alloc :: tr ++ [c_frameserver_free])
      | (true, newseg, tr) =>
        let tr := c_frameserver_alloc :: tr in
        let hintw := clamp_hint hintw (ARCAN_SHMPAGE_MAXW K) in
        let hinth := clamp_hint hinth (ARCAN_SHMPAGE_MAXH K) in
        let tr := tr ++ [c_video_addfobject hintw hinth] in
        if negb (sp_addfobject os)
        then (None, Some ctx, tr ++ [c_frameserver_free])
        else
          (* newseg->shm.ptr->w = hintw; newseg->shm.ptr->h = hinth; *)
          let page :=
            (λ p, {| dms := dms p; parent := parent p; major := major p;
                      minor := minor p; segment_size := segment_size p;
                      cookie := cookie p; w := hintw; h := hinth |})
              <$> ptr (shm newseg) in
          let newseg :=
            set_shm {| key := key (shm newseg); shmsize := shmsize (shm newseg);
                       handle := handle (shm newseg); ptr := page |} newseg in
          let '(newseg, tr) :=
            if negb input
            then (set_has_audio true newseg, tr ++ [c_audio_feed])
            else (newseg, tr) in
          let newseg := set_source (source ctx) newseg in
          let newseg :=
            set_flags {| alive := alive (flags newseg); pbo := pbo (flags ctx);
                         subsegment := true;
                         socksig := socksig (flags newseg) |} newseg in
          let '(newseg, ctx, tr) :=
            match sp_socketpair os with
            | None => (newseg, ctx, tr ++ [c_socketpair; c_warning])
            | Some (sockp0, sockp1) =>
              let newseg := set_sockout_fd sockp0 newseg in
              let '(_, ctx', tr') :=
                arcan_frameserver_pushfd (sp_pushhandle os) (Some ctx) sockp1 in
              (newseg, default ctx ctx',
               tr ++ [c_socketpair; c_fcntl_cloexec sockp0;
                      c_fcntl_cloexec sockp1] ++ tr')
            end in
          let keyev :=
            {| category := EVENT_TARGET; kind := TARGET_COMMAND_NEWSEGMENT;
               ioev0 := if input then 1 else 0; ioev1 := tag;
               message := str_take (target_message_size K - 1)
                                   (key (shm newseg)) |} in
          let newseg := set_child (child ctx) newseg in
          let newseg :=
            set_flags {| alive := true; pbo := pbo (flags newseg);
                         subsegment := subsegment (flags newseg);
                         socksig := socksig (flags newseg) |} newseg in
          let '(newseg, keyev) :=
            if input
            then (set_flags {| alive := alive (flags newseg);
                               pbo := pbo (flags newseg);
                               subsegment := subsegment (flags newseg);
                               socksig := true |}
                    (set_segid SEGID_ENCODER newseg),
                  {| category := category keyev; kind := kind keyev;
                     ioev0 := 1; ioev1 := tag; message := message keyev |})
            else (set_flags {| alive := alive (flags newseg);
                               pbo := pbo (flags newseg);
                               subsegment := subsegment (flags newseg);
                               socksig := true |}
                    (set_segid SEGID_UNKNOWN newseg),
                  keyev) in
          let ctx := set_outqueue (arcan_event_enqueue (outqueue ctx) keyev) ctx in
          (Some newseg, Some ctx, tr ++ [c_event_enqueue keyev])
      end
  end.

(** The events of one kind in a queue. *)
Definition events_of_kind (k : target_command) (q : list arcan_event)
    : list arcan_event :=
  filter (λ ev, kind ev = k) q.

(** ** a12/net/net.c *)

Definition EXIT_SUCCESS : Z := 0.

(** [static const char* trace_groups[]], as the file has it. *)
Definition trace_groups : list string :=
  ["video"; "audio"; "system"; "event"; "missing"; "alloc"; "crypto";
   "vdetail"; "btransfer"].

(** The groups and values printed by [show_usage] under
    "Trace groups (stderr)". *)
Definition usage_trace_groups : list (string * Z) :=
  [("video", 1); ("audio", 2); ("system", 4); ("event", 8); ("transfer", 16);
   ("debug", 32); ("missing", 64); ("alloc", 128); ("crypto", 256);
   ("vdetail", 512); ("btransfer", 1024)].

(** [tolower] in the C locale. *)
Definition tolower (c : ascii) : ascii :=
  let n := N_of_ascii c in
  if (65 <=? n)%N && (n <=? 90)%N then ascii_of_N (n + 32) else c.

(** [strcasecmp(a, b) == 0] *)
Fixpoint strcasecmp_eq (a b : string) : bool :=
  match a, b with
  | EmptyString, EmptyString => true
  | String x a', String y b' => Ascii.eqb (tolower x) (tolower y) && strcasecmp_eq a' b'
  | _, _ => false
  end.

(** The tokens that [strtok(work, delim)] followed by [strtok(NULL, delim)]
    until [NULL] hands out for a single delimiter: the maximal runs without
    the delimiter.  [cur] is the token being read. *)
Fixpoint strtok_all (delim : ascii) (cur : option string) (s : string)
    : list string :=
  match s with
  | EmptyString => option_list cur
  | String a rest =>
    if Ascii.eqb a delim
    then option_list cur ++ strtok_all delim None rest
    else strtok_all delim (Some (default EmptyString cur +:+ String a EmptyString)) rest
  end.

(** The [for] loop over [trace_groups] for one token, from index [i] on: the
    first group that compares equal sets bit [i] and ends the loop. *)
Fixpoint trace_group_scan (groups : list string) (i : nat) (pt : string)
    (res : Z) : Z :=
  match groups with
  | [] => res
  | g :: groups' =>
    if strcasecmp_eq g pt then Z.lor res (Z.shiftl 1 (Z.of_nat i))
    else trace_group_scan groups' (S i) pt res
  end.

(** [static int tracestr_to_bitmap(char* work)] *)
Definition tracestr_to_bitmap (work : string) : Z :=
  foldl (λ res pt, trace_group_scan trace_groups 0 pt res) 0
        (strtok_all "," None work).

(** Calls and output of the net front end, in program order. *)
Inductive net_call :=
  | n_client_poll                 (* shmifsrv_poll(cl) *)
  | n_cl_setup                    (* anet_cl_setup(opts) *)
  | n_fputs_errmsg
  | n_sleep (seconds : Z)
  | n_stderr (msg : string)
  | n_usage (msg : option string) (* show_usage(msg) *)
  | n_bridge                      (* a12helper_a12srv_shmifcl *)
  | n_shutdown (fd : Z)
  | n_close (fd : Z)
  | n_keystore_open
  | n_keystore_register (tag host : string) (port : Z)
  | n_keystore_release.












(** What the keystore subcommand meets. *)
Record keystore_env := {
  ks_statepath : option string;   (* getenv("ARCAN_STATEPATH") *)
  ks_opendir : Z;                 (* open(basedir, ...): descriptor or -1 *)
  ks_open : bool;                 (* a12helper_keystore_open *)
  ks_strtoul : string → Z;        (* strtoul(_, NULL, 10) *)
  ks_register : bool              (* a12helper_keystore_register *)
}.

(** [static bool show_usage(const char* msg)]: prints and returns [false]. *)
Definition show_usage (msg : option string) : bool * list net_call :=
  (false, [n_usage msg]).

(** A [bool] returned from a function whose type is [int]. *)
Definition int_of_bool (b : bool) : Z := if b then 1 else 0.

(** [static int get_keystore_dirfd(const char** err)] *)
Definition get_keystore_dirfd (env : keystore_env) : Z * string :=
  match ks_statepath env with
  | None => (-1, "Missing basedir with keystore (set ARCAN_STATEPATH)")
  | Some basedir =>
    if bool_decide (ks_opendir env = -1)
    then (-1, "Error opening basedir, check permissions and type")
    else (ks_opendir env, EmptyString)
  end.

(** [static int apply_keystore_command(int argc, char** argv)] with
    [argc = length argv]: the value returned and the calls made. *)
Definition apply_keystore_command (env : keystore_env) (argv : list string)
    : Z * list net_call :=
  let usage (pre : list net_call) (msg : string) :=
    let '(b, tr) := show_usage (Some msg) in (int_of_bool b, pre ++ tr) in
  match argv with
  | [] => usage [] "Missing keystore command arguments"
  | _ =>
    let '(dir, err) := get_keystore_dirfd env in
    if bool_decide (dir = -1) then usage [] err
    else if negb (ks_open env)
    then usage [n_keystore_open] "Couldn't open keystore from basedir"
    else
      match argv with
      | tag :: host :: rest =>
        let finish (port : Z) :=
          let tr := [n_keystore_open; n_keystore_register tag host port] in
          (* if (!a12helper_keystore_register(tag, host, port)){ } *)
          let tr := if negb (ks_register env) then tr else tr in
          (EXIT_SUCCESS, tr ++ [n_keystore_release]) in
        match rest with
        | [] => finish 6680
        | a :: _ =>
          let port := ks_strtoul env a in
          if bool_decide (port = 0) || bool_decide (port > 65535)
          then usage [n_keystore_open; n_keystore_release]
                     "Port argument is invalid or out of range"
          else finish port
        end
      | _ => usage [n_keystore_open; n_keystore_release]
                   "Missing tag / host arguments"
      end
  end.

(** The first branch of [main]: [argv[1]] is "keystore" and the rest of the
    command line goes to [apply_keystore_command], whose result is the exit
    code of the process. *)
Definition main_keystore (env : keystore_env) (argv : list string)
    : option (Z * list net_call) :=
  match argv with
  | _ :: "keystore" :: rest => Some (apply_keystore_command env rest)
  | _ => None
  end.

(** What the process writes to stderr. *)
Definition is_diagnostic (c : net_call) : bool :=
  match c with
  | n_stderr _ | n_usage _ | n_fputs_errmsg => true
  | _ => false
  end.

Definition diagnostics (tr : list net_call) : list net_call :=
  filter (λ c, is_diagnostic c) tr.

(** ** Concrete settings used by the examples *)

(** A Linux build with a HOME-relative prefix and a key limit of 32. *)
Definition linux_consts : shmif_consts :=
  {| ARCAN_SHMPAGE_START_SZ := 4096;
     ARCAN_SHMPAGE_MAXW := 8192; ARCAN_SHMPAGE_MAXH := 8192;
     ARCAN_SHM_PREFIX := ".arcan_"; ARCAN_SHM_UMASK := 448;
     ARCAN_VERSION_MAJOR := 0; ARCAN_VERSION_MINOR := 5;
     PP_SHMPAGE_SHMKEYLIM := 32; sun_path_size := 108;
     target_message_size := 78; on_linux := true |}.

(** Every call succeeds; the key has the shape [arcan_findshmkey] hands out. *)
Definition os_fine : shmalloc_os :=
  {| os_shmkey := "/arcan_1_2m"; os_shmfd := 5; os_socket := 6;
     os_home := Some "/home/u"; os_bind := 0; os_ftruncate := 0;
     os_mmap := true; os_getpid := 100; os_cookie := 77 |}.

(** The names the three semaphores would have if the suffix were appended
    to the key. *)
Definition suffixed_names (k : string) : list string :=
  [k +:+ "v"; k +:+ "a"; k +:+ "e"].

(** The names with the suffix in place of the last character of the key. *)
Definition replaced_names (k : string) : list string :=
  [str_init k +:+ "v"; str_init k +:+ "a"; str_init k +:+ "e"].

(** A failure exit of [shmalloc] that is not the [return false] after a
    failed [ftruncate]: the call was not reached, or it succeeded. *)
Definition not_truncate_exit (os : shmalloc_os) (tr : list call) : Prop :=
  (∀ fd sz, c_ftruncate fd sz ∉ tr) ∨ os_ftruncate os ≠ -1.

(** The cleanup every failure exit of the allocator would perform according
    to the specification: the shared-memory object is unlinked, and each
    descriptor obtained on the way (the object's, the socket's) is closed. *)
Definition unlinks_and_closes (os : shmalloc_os) (tr : list call) : Prop :=
  os_shmkey os ∈ shm_unlinked tr
  ∧ os_shmfd os ∈ closed_fds tr
  ∧ (∀ fd, c_fcntl_cloexec fd ∈ tr → fd ∈ closed_fds tr).

(** A named listener is requested and everything works until [mmap] fails. *)
Definition os_map_fails : shmalloc_os :=
  {| os_shmkey := "/arcan_1_2m"; os_shmfd := 5; os_socket := 6;
     os_home := Some "/home/u"; os_bind := 0; os_ftruncate := 0;
     os_mmap := false; os_getpid := 100; os_cookie := 77 |}.

(** [bind] fails on the listener's path. *)
Definition os_bind_fails : shmalloc_os :=
  {| os_shmkey := "/arcan_1_2m"; os_shmfd := 5; os_socket := 6;
     os_home := Some "/home/u"; os_bind := -1; os_ftruncate := 0;
     os_mmap := true; os_getpid := 100; os_cookie := 77 |}.

(** The values a [uint8_t] or a [char] buffer element can have. *)
Definition is_byte (b : Z) : Prop := 0 ≤ b < 256.

#[global] Instance is_byte_dec b : Decision (is_byte b).
Proof. unfold is_byte. apply _. Defined.

(** A tick on which [poll] reports nothing for the socket. *)
Definition io_idle : verify_io :=
  {| io_poll := {| poll_sv := 0; poll_eintr := false; poll_hangup := false |};
     io_read := None; io_writes := [] |}.

(** One tick of the host: a byte arrived ([Some b]) or nothing did. *)
Definition io_tick (t : option Z) : verify_io :=
  match t with
  | Some b => io_byte b
  | None => io_idle
  end.

(** The bytes that arrive over a sequence of ticks. *)
Definition arrived (ticks : list (option Z)) : list Z := omap id ticks.

(** A record in the verifying state that holds a non-empty expected key and
    has stored the bytes [got] so far. *)
Definition verifying (K : shmif_consts) (tgt : arcan_frameserver)
    (got : list Z) : Prop :=
  feed tgt = ff_socketverify
  ∧ freed tgt = false
  ∧ byte_at (clientkey tgt) 0 ≠ 0
  ∧ Forall is_byte (clientkey tgt)
  ∧ length (clientkey tgt) = PP_SHMPAGE_SHMKEYLIM K
  ∧ length (sockinbuf tgt) = PP_SHMPAGE_SHMKEYLIM K
  ∧ sockrofs tgt = length got
  ∧ take (length got) (sockinbuf tgt) = got.

(** The input right-padded with NUL to the key limit. *)
Definition nul_padded (K : shmif_consts) (inp : list Z) : list Z :=
  inp ++ replicate (PP_SHMPAGE_SHMKEYLIM K - length inp) 0.

(** A record that waits for the key "ABCDEF" on descriptor 9. *)
Definition tgt_keyed : arcan_frameserver :=
  {| shm := {| key := "/arcan_1_2m"; shmsize := 4096; handle := 5; ptr := None |};
     vsync := None; async := None; esync := None;
     sockout_fd := 9; sockaddr := None;
     clientkey := bytes_of_string "ABCDEF" ++ replicate 26 0;
     sockinbuf := replicate 32 0;
     sockrofs := 0%nat; child := BROKEN_PROCESS_HANDLE;
     flags := {| alive := true; pbo := false; subsegment := false;
                 socksig := false |};
     segid := SEGID_UNKNOWN; source := None;
     has_audio := false; outqueue := []; feed := ff_socketverify;
     freed := false |}.

(** The same record without an expected key: the first connection is taken. *)
Definition tgt_open : arcan_frameserver :=
  {| shm := shm tgt_keyed;
     vsync := None; async := None; esync := None;
     sockout_fd := 9; sockaddr := None;
     clientkey := replicate 32 0;
     sockinbuf := replicate 32 0;
     sockrofs := 0%nat; child := BROKEN_PROCESS_HANDLE;
     flags := flags tgt_keyed;
     segid := SEGID_UNKNOWN; source := None;
     has_audio := false; outqueue := []; feed := ff_socketverify;
     freed := false |}.

(** A socket that takes the twelve bytes of "/arcan_1_2m\n" in one [write]. *)
Definition io_accepts : verify_io :=
  {| io_poll := {| poll_sv := 0; poll_eintr := false; poll_hangup := false |};
     io_read := None; io_writes := [write_ok 12] |}.

(** The event [arcan_frameserver_pushfd] pushes after a descriptor handoff. *)
Definition fdtransfer_event : arcan_event :=
  {| category := EVENT_TARGET; kind := TARGET_COMMAND_FDTRANSFER;
     ioev0 := 0; ioev1 := 0; message := EmptyString |}.

(** The announce for a new segment: [ioevs[0].iv] tells an input segment,
    [ioevs[1].iv] is the tag, the message is the key as far as it fits. *)
Definition newsegment_event (K : shmif_consts) (input : bool) (tag : Z)
    (shmkey : string) : arcan_event :=
  {| category := EVENT_TARGET; kind := TARGET_COMMAND_NEWSEGMENT;
     ioev0 := if input then 1 else 0; ioev1 := tag;
     message := str_take (target_message_size K - 1) shmkey |}.

(** The descriptor handoff of a spawn took place: the socketpair was made,
    its second descriptor is accepted by [arcan_frameserver_pushfd], and
    [arcan_pushhandle] succeeded. *)
Definition handed_off (os : spawn_os) : bool :=
  match sp_socketpair os with
  | Some (_, sockp1) => bool_decide (sockp1 ≠ 0) && sp_pushhandle os
  | None => false
  end.

(** An alive parent with process 4242 behind it and an empty queue. *)
Definition parent_alive : arcan_frameserver :=
  {| shm := {| key := "/arcan_0_1m"; shmsize := 4096; handle := 3; ptr := None |};
     vsync := None; async := None; esync := None;
     sockout_fd := 4; sockaddr := None;
     clientkey := replicate 32 0; sockinbuf := replicate 32 0;
     sockrofs := 0%nat; child := 4242;
     flags := {| alive := true; pbo := false; subsegment := false;
                 socksig := false |};
     segid := SEGID_UNKNOWN; source := None;
     has_audio := false; outqueue := []; feed := ff_emptyframe;
     freed := false |}.

Definition sp_fine : spawn_os :=
  {| sp_alloc := fresh_frameserver linux_consts;
     sp_shm := os_fine; sp_addfobject := true;
     sp_socketpair := Some (7, 8); sp_pushhandle := true |}.

(** [socketpair] fails, everything else works. *)
Definition sp_no_socketpair : spawn_os :=
  {| sp_alloc := fresh_frameserver linux_consts;
     sp_shm := os_fine; sp_addfobject := true;
     sp_socketpair := None; sp_pushhandle := true |}.



(** The value [show_usage] prints for a trace group. *)
Definition usage_value (name : string) : option Z :=
  (λ r, r.2.2) <$> list_find (λ p, p.1 = name) usage_trace_groups.

(** A keystore that opens but does not take the entry. *)
Definition ks_rejects : keystore_env :=
  {| ks_statepath := Some "/home/u/.arcan"; ks_opendir := 3; ks_open := true;
     ks_strtoul := λ _, 0; ks_register := false |}.


(** ** Child supervision: [nanny_thread], [arcan_frameserver_killchild],
    [arcan_frameserver_validchild] *)

(** Calls of the supervision code, in program order. *)
Inductive sup_call :=
  | s_waitpid (pid : Z)
  | s_kill (pid : Z)               (* kill(pid, SIGKILL) *)
  | s_sleep (seconds : Z)
  | s_free_pid
  | s_getenv_nonanny               (* getenv("ARCAN_DEBUG_NONANNY") *)
  | s_pthread_create
  | s_poll (fd : Z).

(** The [while (counter--)] loop of [nanny_thread]; [counter] is the value
    tested by the loop condition, [k] counts the [waitpid] calls made so far
    and [rvs k] is what the call number [k] returns. *)
Fixpoint nanny_loop (counter k : nat) (pid : Z) (rvs : nat → Z)
    : list sup_call :=
  match counter with
  | O => []
  | S counter =>
    s_waitpid pid ::
      (if bool_decide (rvs k > 0) then []
       else if bool_decide (counter = 0%nat) then [s_kill pid]
       else s_sleep 1 :: nanny_loop counter (S k) pid rvs)
  end.

(** [static void* nanny_thread(void* arg)]; [arg] points to the pid. *)
Definition nanny_thread (arg : option Z) (rvs : nat → Z) : list sup_call :=
  match arg with
  | None => []
  | Some pid => nanny_loop 10 0 pid rvs ++ [s_free_pid]
  end.

(** The two function-local statics of [arcan_frameserver_killchild]. *)
Record nanny_statics := {
  env_checked : bool;
  no_nanny : bool
}.

(** What one call of [arcan_frameserver_killchild] meets. *)
Record killchild_os := {
  kc_env_set : bool;      (* getenv("ARCAN_DEBUG_NONANNY") != NULL *)
  kc_pthread : Z;         (* pthread_create(): 0 on success *)
  kc_waitpid : nat → Z    (* what the guard thread's waitpid calls return *)
}.

(** [void arcan_frameserver_killchild(arcan_frameserver* src)]: the statics
    afterwards, the calls of the calling thread, and the calls of the guard
    thread if one was started. *)
Definition arcan_frameserver_killchild (os : killchild_os)
    (st : nanny_statics) (src : option arcan_frameserver)
    : nanny_statics * list sup_call * list sup_call :=
  match src with
  | None => (st, [], [])
  | Some src =>
    if subsegment (flags src) then (st, [], [])
    else if bool_decide (child src ≤ 1) then (st, [], [])
    else
      let '(st, tr) :=
        if negb (env_checked st)
        then ({| env_checked := true;
                 no_nanny := if kc_env_set os then true else no_nanny st |},
              [s_getenv_nonanny])
        else (st, []) in
      if no_nanny st then (st, tr, [])
      else if bool_decide (kc_pthread os ≠ 0)
      then (st, tr ++ [s_pthread_create; s_kill (child src)], [])
      else (st, tr ++ [s_pthread_create],
            nanny_thread (Some (child src)) (kc_waitpid os))
  end.

(** [bool arcan_frameserver_validchild(arcan_frameserver* src)]; [p] is what
    [poll] reports for the control socket ([poll_hangup] standing for
    [revents & mask]) and [waitpid_rv] what [waitpid] returns. *)
Definition arcan_frameserver_validchild (p : poll_result) (waitpid_rv : Z)
    (src : option arcan_frameserver) : bool * list sup_call :=
  match src with
  | None => (false, [])
  | Some src =>
    if negb (alive (flags src)) then (false, [])
    else if bool_decide (child src = BROKEN_PROCESS_HANDLE) then
      if bool_decide (sockout_fd src > 0) then
        if (bool_decide (poll_sv p = -1) && negb (poll_eintr p))
           || poll_hangup p
        then (false, [s_poll (sockout_fd src)])
        else (true, [s_poll (sockout_fd src)])
      else (true, [])
    else
      if bool_decide (waitpid_rv = child src)
      then (false, [s_waitpid (child src)])
      else (true, [s_waitpid (child src)])
  end.

Definition is_waitpid (c : sup_call) : bool :=
  match c with s_waitpid _ => true | _ => false end.

Definition is_sup_sleep (c : sup_call) : bool :=
  match c with s_sleep _ => true | _ => false end.

Definition waitpids (tr : list sup_call) : nat :=
  length (filter (λ c, is_waitpid c) tr).

Definition nanny_sleeps (tr : list sup_call) : nat :=
  length (filter (λ c, is_sup_sleep c) tr).

Definition kills (tr : list sup_call) : list Z :=
  omap (λ c, match c with s_kill pid => Some pid | _ => None end) tr.

(** A guard thread whose child never shows up in [waitpid]. *)
Definition never_reaped : nat → Z := λ _, 0.

(** An authoritative producer: process 4242 behind an alive record. *)
Definition os_guarded : killchild_os :=
  {| kc_env_set := false; kc_pthread := 0; kc_waitpid := never_reaped |}.

Definition statics_unchecked : nanny_statics :=
  {| env_checked := false; no_nanny := false |}.

(** A [poll] that reports nothing. *)
Definition poll_quiet : poll_result :=
  {| poll_sv := 0; poll_eintr := false; poll_hangup := false |}.

(** ** Conditions of [shmalloc], spelled out *)

(** Which of the three ways of building the listener's path a build uses. *)
Inductive prefix_kind := prefix_abstract | prefix_home | prefix_absolute.

Definition prefix_kind_of (K : shmif_consts) : prefix_kind :=
  if on_linux K && Ascii.eqb (str_head (ARCAN_SHM_PREFIX K)) Ascii.zero
  then prefix_abstract
  else if negb (Ascii.eqb (str_head (ARCAN_SHM_PREFIX K)) "/")
  then prefix_home
  else prefix_absolute.

(** The contents of [addr.sun_path] for a listener key, when there is one. *)
Definition listener_path (K : shmif_consts) (os : shmalloc_os)
    (optkey : string) : option string :=
  match prefix_kind_of K with
  | prefix_home =>
    (λ home, home +:+ "/" +:+ ARCAN_SHM_PREFIX K +:+ optkey) <$> os_home os
  | _ => Some (ARCAN_SHM_PREFIX K +:+ optkey)
  end.

(** Everything the named-socket block asks for. *)
Definition listener_ok (K : shmif_consts) (os : shmalloc_os)
    (optkey : option string) : Prop :=
  ∃ k, optkey = Some k
       ∧ k ≠ EmptyString
       ∧ (strlen (ARCAN_SHM_PREFIX K) + strlen k ≤ sun_path_size K - 1)%nat
       ∧ os_socket os ≠ -1
       ∧ (prefix_kind_of K = prefix_home →
          ∃ home, os_home os = Some home
                  ∧ (strlen home + strlen k + strlen (ARCAN_SHM_PREFIX K)
                     ≤ sun_path_size K - 1)%nat)
       ∧ os_bind os = 0.

(** The control header as [shmalloc] leaves it. *)
Definition fresh_page (K : shmif_consts) (os : shmalloc_os)
    : arcan_shmif_page :=
  {| dms := true; parent := os_getpid os;
     major := ARCAN_VERSION_MAJOR K; minor := ARCAN_VERSION_MINOR K;
     segment_size := ARCAN_SHMPAGE_START_SZ K; cookie := os_cookie os;
     w := 0; h := 0 |}.

(** [ftruncate] fails on the object. *)
Definition os_truncate_fails : shmalloc_os :=
  {| os_shmkey := "/arcan_1_2m"; os_shmfd := 5; os_socket := 6;
     os_home := Some "/home/u"; os_bind := 0; os_ftruncate := -1;
     os_mmap := true; os_getpid := 100; os_cookie := 77 |}.

(** A spawn gets as far as returning a record. *)
Definition spawn_ok (os : spawn_os) : Prop :=
  os_ftruncate (sp_shm os) ≠ -1 ∧ os_mmap (sp_shm os) = true
  ∧ sp_addfobject os = true.

(** The socket has something to read and [read] stores [b] (or nothing),
    and the [write] calls that follow return [ws]. *)
Definition io_ready (b : option Z) (ws : list write_result) : verify_io :=
  {| io_poll := {| poll_sv := 1; poll_eintr := false; poll_hangup := false |};
     io_read := b; io_writes := ws |}.

(** The calls of a trace that act on a descriptor, with that descriptor. *)
Definition call_fd (c : call) : option Z :=
  match c with
  | c_poll fd | c_read fd | c_write fd _ | c_fcntl_nonblock fd
  | c_fcntl_cloexec fd | c_close fd | c_bind fd _ | c_fchmod fd _
  | c_listen fd _ => Some fd
  | _ => None
  end.

(** The record [tgt_keyed] waits for: "ABCDEF". *)
Definition key_abcdef : list Z := bytes_of_string "ABCDEF".

(** [poll] reports a hangup on the socket. *)
Definition io_hangup : verify_io :=
  {| io_poll := {| poll_sv := 1; poll_eintr := false; poll_hangup := true |};
     io_read := None; io_writes := [] |}.

(** The number of [write] calls in a trace. *)
Definition write_calls (tr : list call) : nat := length (written tr).

(** * Properties *)

(** ** Facts about the string helpers *)

Lemma str_store_last_cons a b s c :
  str_store (String a (String b s)) (strlen (String a (String b s)) - 1) c
  = String a (str_store (String b s) (strlen (String b s) - 1) c).
Proof.
  unfold strlen. simpl. by rewrite Nat.sub_0_r.
Qed.

(** Overwriting the last character is dropping it and appending the new one. *)
Lemma store_last_init s c :
  s ≠ EmptyString → store_last s c = str_init s +:+ String c EmptyString.
Proof.
  unfold store_last.
  induction s as [|a s IH]; [done|]. intros _.
  destruct s as [|b s]; [done|].
  rewrite str_store_last_cons, IH by done. reflexivity.
Qed.

Lemma str_init_snoc s c : str_init (s +:+ String c EmptyString) = s.
Proof.
  induction s as [|a s IH]; [done|].
  change (String a s +:+ String c EmptyString) with (String a (s +:+ String c EmptyString)).
  simpl. rewrite IH. destruct s; reflexivity.
Qed.

Lemma snoc_nonempty s c : s +:+ String c EmptyString ≠ EmptyString.
Proof. by destruct s. Qed.

(** A second store at the last position replaces the first. *)
Lemma store_last_twice s c d :
  store_last (store_last s c) d = store_last s d.
Proof.
  destruct (decide (s = EmptyString)) as [->|Hne]; [done|].
  rewrite (store_last_init s c) by done.
  rewrite store_last_init by apply snoc_nonempty.
  rewrite str_init_snoc. by rewrite store_last_init.
Qed.

(** The three names of lines 264-273 in terms of the key alone. *)
Lemma shmalloc_semnames_eq k :
  shmalloc_semnames k
  = (store_last k "e", (store_last k "v", store_last k "a", store_last k "e")).
Proof. unfold shmalloc_semnames. by rewrite !store_last_twice. Qed.

(** ** Facts about [shmalloc] *)

(** Case analysis over every branch of [shmalloc]. *)
Ltac shmalloc_cases :=
  unfold shmalloc, shmalloc_listen; simpl;
  repeat first [ progress simplify_eq/= | case_match | case_bool_decide ].

(** Every run of [shmalloc] starts with the key lookup and the three
    [sem_open] calls, and none follows. *)
Lemma shmalloc_trace_head K os ctx ns optkey :
  ∃ rest,
    (shmalloc K os ctx ns optkey).2
    = [c_findshmkey; c_sem_open (store_last (os_shmkey os) "v");
       c_sem_open (store_last (os_shmkey os) "a");
       c_sem_open (store_last (os_shmkey os) "e")] ++ rest
    ∧ sem_opened rest = [] ∧ shm_unlinked rest = [].
Proof.
  unfold shmalloc. rewrite shmalloc_semnames_eq.
  unfold shmalloc_listen. simpl.
  repeat first [ progress simplify_eq/= | case_match | case_bool_decide ];
    eexists; (split; [reflexivity|]); split; reflexivity.
Qed.

Lemma shmalloc_key K os ctx ns optkey :
  key (shm (shmalloc K os ctx ns optkey).1.2) = os_shmkey os.
Proof. shmalloc_cases; reflexivity. Qed.

Lemma shmalloc_sem_opened K os ctx ns optkey :
  sem_opened (shmalloc K os ctx ns optkey).2
  = [store_last (os_shmkey os) "v"; store_last (os_shmkey os) "a";
     store_last (os_shmkey os) "e"].
Proof.
  destruct (shmalloc_trace_head K os ctx ns optkey) as (rest & -> & Hr & _).
  unfold sem_opened in *. rewrite omap_app, Hr. reflexivity.
Qed.

Lemma dropshared_sem_unlinked src rc :
  sem_unlinked (arcan_frameserver_dropshared (Some src) rc)
  = [store_last (key (shm src)) "v"; store_last (key (shm src)) "a";
     store_last (key (shm src)) "e"].
Proof.
  unfold arcan_frameserver_dropshared, sem_unlinked.
  rewrite !store_last_twice, omap_app.
  repeat first [ case_match | case_bool_decide ]; reflexivity.
Qed.

Lemma dropshared_shm_unlinked src rc :
  shm_unlinked (arcan_frameserver_dropshared (Some src) rc) = [key (shm src)].
Proof.
  unfold arcan_frameserver_dropshared, shm_unlinked. rewrite omap_app.
  repeat first [ case_match | case_bool_decide ]; reflexivity.
Qed.

(** ** Semaphore names (C1, C10) *)

(** C1, as stated, fails: for the key "/arcan_1_2m" the allocator does not
    open "/arcan_1_2mv", "/arcan_1_2ma", "/arcan_1_2me"; the suffix is not
    appended to the key. *)
Lemma semaphore_names_not_suffixed :
  sem_opened
    (shmalloc linux_consts os_fine (fresh_frameserver linux_consts) false None).2
  ≠ suffixed_names (os_shmkey os_fine).
Proof. vm_compute. discriminate. Qed.

(** C1, amended: for every non-empty segment key K the three semaphores
    opened by the allocator and the three unlinked at teardown are named K
    with its last character replaced by 'v', 'a' and 'e', in that order. *)
Theorem semaphore_names_replace_last K os ctx ns optkey src rc :
  os_shmkey os ≠ EmptyString →
  key (shm src) ≠ EmptyString →
  sem_opened (shmalloc K os ctx ns optkey).2 = replaced_names (os_shmkey os)
  ∧ sem_unlinked (arcan_frameserver_dropshared (Some src) rc)
    = replaced_names (key (shm src)).
Proof.
  intros Hk Hs. rewrite shmalloc_sem_opened, dropshared_sem_unlinked.
  unfold replaced_names. by rewrite !store_last_init.
Qed.

Lemma semaphore_names_replace_last_witness :
  sem_opened
    (shmalloc linux_consts os_fine (fresh_frameserver linux_consts) false None).2
  = ["/arcan_1_2v"; "/arcan_1_2a"; "/arcan_1_2e"]
  ∧ sem_unlinked
      (arcan_frameserver_dropshared
         (Some (shmalloc linux_consts os_fine (fresh_frameserver linux_consts)
                  false None).1.2) 0)
    = ["/arcan_1_2v"; "/arcan_1_2a"; "/arcan_1_2e"].
Proof.
  apply (semaphore_names_replace_last linux_consts os_fine
           (fresh_frameserver linux_consts) false None
           (shmalloc linux_consts os_fine (fresh_frameserver linux_consts)
              false None).1.2 0).
  - vm_compute. discriminate.
  - vm_compute. discriminate.
Defined.

(** C10: whatever key the allocator was given, tearing down the record it
    filled unlinks exactly the three semaphore names it opened, in the same
    order, and the shared-memory object under that key; both functions derive
    the names from the key by the same three stores. *)
Theorem dropshared_releases_allocated K os ctx ns optkey rc :
  let alloc := shmalloc K os ctx ns optkey in
  let drop := arcan_frameserver_dropshared (Some alloc.1.2) rc in
  sem_unlinked drop = sem_opened alloc.2
  ∧ shm_unlinked drop = [os_shmkey os]
  ∧ sem_opened alloc.2
    = [store_last (os_shmkey os) "v"; store_last (os_shmkey os) "a";
       store_last (os_shmkey os) "e"].
Proof.
  intros alloc drop. subst alloc drop.
  rewrite dropshared_sem_unlinked, dropshared_shm_unlinked.
  rewrite shmalloc_sem_opened, shmalloc_key. done.
Qed.

(** ** Failure exits of [shmalloc] (C6) *)

(** Membership in a list that is written out: as a goal, as a hypothesis. *)
Ltac in_list :=
  repeat first [apply list_elem_of_here | apply list_elem_of_further].

Ltac invert_in H :=
  repeat (apply elem_of_cons in H as [H|H]; [try discriminate H|]);
  try (by apply elem_of_nil in H).

(** Closes a goal [∃ pre, l = pre ++ suf] on a list that is written out. *)
Ltac split_off_suffix :=
  lazymatch goal with
  | |- ∃ pre, ?l = pre ++ ?suf =>
    exists (take (length l - length suf) l); reflexivity
  end.

(** C6, as stated, fails: with a named listener set up and [mmap] failing the
    allocator returns [false] without unlinking the shared-memory object and
    without closing a descriptor. *)
Lemma shmalloc_failure_leaves_object :
  let r := shmalloc linux_consts os_map_fails (fresh_frameserver linux_consts)
             true (Some "demo") in
  r.1.1 = false ∧ ¬ unlinks_and_closes os_map_fails r.2.
Proof.
  split; [reflexivity|].
  intros (H & _). vm_compute in H. by apply elem_of_nil in H.
Qed.

(** C6, amended: on every failure exit of the allocator other than the one
    after a failed [ftruncate], the last thing done is the keyed semaphore
    drop on the key with its last character set to 'e' (followed by the
    release of the work buffer); a socket created for the listener is closed,
    unless it already listens and is stored in the record; nothing but that
    socket is closed, and the allocator never unlinks the shared-memory
    object. *)
Theorem shmalloc_failure_cleanup K os ctx ns optkey :
  (shmalloc K os ctx ns optkey).1.1 = false →
  not_truncate_exit os (shmalloc K os ctx ns optkey).2 →
  (∃ pre, (shmalloc K os ctx ns optkey).2
          = pre ++ [c_dropsemaphores_keyed (store_last (os_shmkey os) "e");
                    c_free_work])
  ∧ (∀ fd, c_fcntl_cloexec fd ∈ (shmalloc K os ctx ns optkey).2 →
           c_close fd ∈ (shmalloc K os ctx ns optkey).2
           ∨ (c_listen fd 1 ∈ (shmalloc K os ctx ns optkey).2
              ∧ sockout_fd (shmalloc K os ctx ns optkey).1.2 = fd))
  ∧ (∀ fd, c_close fd ∈ (shmalloc K os ctx ns optkey).2 → fd = os_socket os)
  ∧ shm_unlinked (shmalloc K os ctx ns optkey).2 = [].
Proof.
  unfold shmalloc, not_truncate_exit. rewrite shmalloc_semnames_eq.
  unfold shmalloc_listen. simpl.
  repeat first [ progress simplify_eq/= | case_match | case_bool_decide ];
    intros Hok Hexit; try discriminate Hok;
    try (destruct Hexit as [Hexit|Hexit]; [|done]; exfalso;
         eapply Hexit; solve [in_list]);
    (split; [split_off_suffix|]);
    (split; [|split; [|reflexivity]]);
    intros fd Hfd; invert_in Hfd; simplify_eq;
    first [ reflexivity
          | left; solve [in_list]
          | right; split; [solve [in_list] | reflexivity] ].
Qed.

Lemma shmalloc_failure_cleanup_witness :
  let r := shmalloc linux_consts os_bind_fails (fresh_frameserver linux_consts)
             true (Some "demo") in
  (∃ pre, r.2 = pre ++ [c_dropsemaphores_keyed "/arcan_1_2e"; c_free_work])
  ∧ (∀ fd, c_fcntl_cloexec fd ∈ r.2 →
           c_close fd ∈ r.2 ∨ (c_listen fd 1 ∈ r.2 ∧ sockout_fd r.1.2 = fd))
  ∧ (∀ fd, c_close fd ∈ r.2 → fd = 6)
  ∧ shm_unlinked r.2 = [].
Proof.
  apply (shmalloc_failure_cleanup linux_consts os_bind_fails
           (fresh_frameserver linux_consts) true (Some "demo")).
  - reflexivity.
  - right. vm_compute. discriminate.
Defined.
(** ** The byte comparison (C2) *)

Lemma land_255_byte b : is_byte b → Z.land b 255 = b.
Proof.
  intros Hb. change 255 with (Z.ones 8).
  rewrite Z.land_ones by lia. apply Z.mod_small. exact Hb.
Qed.

Lemma land_255_range x : is_byte (Z.land x 255).
Proof.
  change 255 with (Z.ones 8). rewrite Z.land_ones by lia.
  apply Z.mod_pos_bound. lia.
Qed.

Lemma land_lxor_distr a b c :
  Z.land (Z.lxor a b) c = Z.lxor (Z.land a c) (Z.land b c).
Proof.
  apply Z.bits_inj'. intros n Hn.
  rewrite !Z.land_spec, !Z.lxor_spec, !Z.land_spec.
  by destruct (Z.testbit a n), (Z.testbit b n), (Z.testbit c n).
Qed.

(** One round of [diffv |= a ^ b] leaves zero exactly when [diffv] was zero
    and the two bytes agree. *)
Lemma diffv_step d a b :
  is_byte d → is_byte a → is_byte b →
  Z.land (Z.lor d (Z.lxor a b)) 255 = 0 ↔ d = 0 ∧ a = b.
Proof.
  intros Hd Ha Hb.
  rewrite Z.land_lor_distr_l, Z.lor_eq_0_iff, land_lxor_distr.
  rewrite !land_255_byte by done. by rewrite Z.lxor_eq_0_iff.
Qed.

Lemma byte_at_is_byte buf i : Forall is_byte buf → is_byte (byte_at buf i).
Proof.
  intros Hbuf. unfold byte_at.
  destruct (buf !! i) as [b|] eqn:Hi; simpl.
  - eapply Forall_lookup_1; eauto.
  - unfold is_byte. lia.
Qed.

Lemma memcmp_nodep_loop_succ s1 s2 i n d :
  memcmp_nodep_loop s1 s2 i (S n) d
  = let r := memcmp_nodep_loop s1 s2 (S i) n
               (Z.land (Z.lor d (Z.lxor (byte_at s1 i) (byte_at s2 i))) 255) in
    (r.1, i :: r.2).
Proof. simpl. by destruct (memcmp_nodep_loop _ _ _ _ _). Qed.

(** The loop ends on zero exactly when it started on zero and the buffers
    agree on the [n] offsets from [i] on. *)
Lemma memcmp_nodep_loop_zero s1 s2 n :
  Forall is_byte s1 → Forall is_byte s2 →
  ∀ i d, is_byte d →
    (memcmp_nodep_loop s1 s2 i n d).1 = 0
    ↔ d = 0 ∧ ∀ j, (i ≤ j < i + n)%nat → byte_at s1 j = byte_at s2 j.
Proof.
  intros H1 H2. induction n as [|n IH]; intros i d Hd.
  - simpl. split; [intros ->; split; [done|intros; lia] | by intros [-> _]].
  - rewrite memcmp_nodep_loop_succ. simpl.
    rewrite IH by apply land_255_range.
    rewrite diffv_step by auto using byte_at_is_byte.
    split.
    + intros [[-> Hi] Hrest]. split; [done|]. intros j Hj.
      destruct (decide (j = i)) as [->|]; [done|]. apply Hrest. lia.
    + intros [-> Hall]. split; [split; [done|]|].
      * apply Hall. lia.
      * intros j Hj. apply Hall. lia.
Qed.

(** The loop dereferences the offsets [i], [i+1], ..., [i+n-1], whatever the
    buffers hold. *)
Lemma memcmp_nodep_loop_reads s1 s2 n :
  ∀ i d, (memcmp_nodep_loop s1 s2 i n d).2 = seq i n.
Proof.
  induction n as [|n IH]; intros i d; [done|].
  rewrite memcmp_nodep_loop_succ. simpl. by rewrite IH.
Qed.

Lemma take_eq_byte_at (s1 s2 : list Z) n :
  (n ≤ length s1)%nat → (n ≤ length s2)%nat →
  take n s1 = take n s2
  ↔ ∀ j, (0 ≤ j < 0 + n)%nat → byte_at s1 j = byte_at s2 j.
Proof.
  intros L1 L2. unfold byte_at. split.
  - intros Heq j Hj.
    rewrite <-(lookup_take_lt s1 n j), <-(lookup_take_lt s2 n j) by lia.
    by rewrite Heq.
  - intros Hall. apply list_eq. intros j.
    destruct (decide (j < n)%nat) as [Hj|Hj].
    + rewrite !lookup_take_lt by done.
      destruct (lookup_lt_is_Some_2 s1 j) as [a Ha]; [lia|].
      destruct (lookup_lt_is_Some_2 s2 j) as [b Hb]; [lia|].
      specialize (Hall j). rewrite Ha, Hb in Hall. simpl in Hall.
      rewrite Ha, Hb. f_equal. apply Hall. lia.
    + rewrite !lookup_take_ge by lia. done.
Qed.

(** What [memcmp_nodep] decides, on buffers of bytes that are long enough. *)
Lemma memcmp_nodep_true s1 s2 n :
  Forall is_byte s1 → Forall is_byte s2 →
  (n ≤ length s1)%nat → (n ≤ length s2)%nat →
  memcmp_nodep s1 s2 n = true ↔ take n s1 = take n s2.
Proof.
  intros H1 H2 L1 L2. unfold memcmp_nodep.
  rewrite negb_involutive, bool_decide_eq_true.
  rewrite memcmp_nodep_loop_zero by (done || (unfold is_byte; lia)).
  rewrite take_eq_byte_at by done.
  split; [by intros [_ Hall] | by intros Hall].
Qed.

(** C2: on two byte buffers of at least [n] bytes the comparison returns
    true exactly when the buffers agree on their first [n] bytes, and it reads
    the offsets 0 to n-1 of both, in order, whatever the buffers hold: the
    reads of any other pair of buffers are the same, so no mismatch ends the
    loop early. *)
Theorem memcmp_nodep_full_length s1 s2 n :
  Forall is_byte s1 → Forall is_byte s2 →
  (n ≤ length s1)%nat → (n ≤ length s2)%nat →
  (memcmp_nodep s1 s2 n = true ↔ take n s1 = take n s2)
  ∧ memcmp_nodep_reads s1 s2 n = seq 0 n
  ∧ ∀ t1 t2, memcmp_nodep_reads t1 t2 n = memcmp_nodep_reads s1 s2 n.
Proof.
  intros H1 H2 L1 L2. split; [by apply memcmp_nodep_true|].
  unfold memcmp_nodep_reads. split; [apply memcmp_nodep_loop_reads|].
  intros t1 t2. by rewrite !memcmp_nodep_loop_reads.
Qed.

Lemma memcmp_nodep_full_length_witness :
  (memcmp_nodep [65; 88; 67; 0] [65; 66; 67; 0] 4 = true
   ↔ take 4 [65; 88; 67; 0] = take 4 [65; 66; 67; 0])
  ∧ memcmp_nodep_reads [65; 88; 67; 0] [65; 66; 67; 0] 4 = seq 0 4
  ∧ ∀ t1 t2, memcmp_nodep_reads t1 t2 4
             = memcmp_nodep_reads [65; 88; 67; 0] [65; 66; 67; 0] 4.
Proof.
  apply (memcmp_nodep_full_length [65; 88; 67; 0] [65; 66; 67; 0] 4).
  - repeat constructor; unfold is_byte; lia.
  - repeat constructor; unfold is_byte; lia.
  - simpl. lia.
  - simpl. lia.
Defined.

(** ** The verifier (C3) *)

Lemma written_app tr tr' : written (tr ++ tr') = written tr ++ written tr'.
Proof. apply omap_app. Qed.

Lemma bytes_of_string_length s : length (bytes_of_string s) = strlen s.
Proof. unfold strlen. induction s; simpl; auto. Qed.

#[local] Arguments socketverify : simpl never.
#[local] Arguments send_key : simpl never.

(** Once the record is freed the host no longer calls the verifier. *)
Lemma verify_run_freed K ios tgt :
  freed tgt = true → verify_run K ios tgt = Some (tgt, []).
Proof. intros H. destruct ios; cbn [verify_run]; [done|]. by rewrite H. Qed.

(** One more call when the record is still verifying. *)
Lemma verify_run_cons K io ios tgt :
  feed tgt = ff_socketverify → freed tgt = false →
  verify_run K (io :: ios) tgt
  = '(tgt, tr) ← socketverify K FFUNC_POLL io tgt;
    '(tgt, tr') ← verify_run K ios tgt;
    Some (tgt, tr ++ tr').
Proof.
  intros Hf Hfr. cbn [verify_run]. rewrite Hfr, Hf.
  by rewrite bool_decide_eq_true_2.
Qed.

Section verifier_steps.
Context (K : shmif_consts) (tgt : arcan_frameserver).
Hypothesis Hkey : byte_at (clientkey tgt) 0 ≠ 0.

Lemma socketverify_idle :
  socketverify K FFUNC_POLL io_idle tgt = Some (tgt, [c_poll (sockout_fd tgt)]).
Proof.
  unfold socketverify. rewrite bool_decide_eq_false_2 by done. reflexivity.
Qed.

Lemma socketverify_store b :
  b ≠ newline → (S (sockrofs tgt) < PP_SHMPAGE_SHMKEYLIM K)%nat →
  socketverify K FFUNC_POLL (io_byte b) tgt
  = Some (set_sockrofs (S (sockrofs tgt))
            (set_sockinbuf (<[sockrofs tgt := b]> (sockinbuf tgt)) tgt),
          [c_poll (sockout_fd tgt); c_read (sockout_fd tgt)]).
Proof.
  intros Hb Hlim. unfold socketverify.
  rewrite bool_decide_eq_false_2 by done. simpl.
  rewrite (bool_decide_eq_false_2 (b = newline)) by done. simpl.
  rewrite bool_decide_eq_false_2 by lia. reflexivity.
Qed.

Lemma socketverify_overflow b :
  b ≠ newline → (PP_SHMPAGE_SHMKEYLIM K ≤ S (sockrofs tgt))%nat →
  ∃ tgt', socketverify K FFUNC_POLL (io_byte b) tgt
          = Some (tgt', [c_poll (sockout_fd tgt); c_read (sockout_fd tgt);
                         c_warning; c_frameserver_free])
          ∧ freed tgt' = true.
Proof.
  intros Hb Hlim. unfold socketverify.
  rewrite bool_decide_eq_false_2 by done. simpl.
  rewrite (bool_decide_eq_false_2 (b = newline)) by done. simpl.
  rewrite bool_decide_eq_true_2 by lia. eexists. split; reflexivity.
Qed.

Lemma socketverify_mismatch :
  (sockrofs tgt < PP_SHMPAGE_SHMKEYLIM K)%nat →
  memcmp_nodep
    (memset_zero (sockinbuf tgt) (sockrofs tgt)
                 (PP_SHMPAGE_SHMKEYLIM K - sockrofs tgt))
    (clientkey tgt) (PP_SHMPAGE_SHMKEYLIM K) = false →
  ∃ tgt', socketverify K FFUNC_POLL (io_byte newline) tgt
          = Some (tgt', [c_poll (sockout_fd tgt); c_read (sockout_fd tgt);
                         c_warning; c_frameserver_free])
          ∧ freed tgt' = true.
Proof.
  intros Hlim Hcmp. unfold socketverify.
  rewrite bool_decide_eq_false_2 by done. simpl.
  rewrite Hcmp. rewrite bool_decide_eq_false_2 by lia.
  eexists. split; reflexivity.
Qed.

End verifier_steps.

(** The buffer the comparison sees at a newline: what was stored, padded. *)
Lemma memset_zero_padded K tgt got :
  verifying K tgt got → (length got < PP_SHMPAGE_SHMKEYLIM K)%nat →
  memset_zero (sockinbuf tgt) (sockrofs tgt)
              (PP_SHMPAGE_SHMKEYLIM K - sockrofs tgt)
  = nul_padded K got.
Proof.
  intros (_ & _ & _ & _ & _ & Hlen & Hofs & Htake) Hlt.
  unfold memset_zero, nul_padded. rewrite Hofs, Htake.
  rewrite drop_ge by lia. by rewrite app_nil_r.
Qed.

Lemma nul_padded_length K got :
  (length got < PP_SHMPAGE_SHMKEYLIM K)%nat →
  length (nul_padded K got) = PP_SHMPAGE_SHMKEYLIM K.
Proof.
  intros. unfold nul_padded. rewrite length_app, length_replicate. lia.
Qed.

Lemma nul_padded_bytes K got :
  Forall is_byte got → Forall is_byte (nul_padded K got).
Proof.
  intros. unfold nul_padded. apply Forall_app. split; [done|].
  apply Forall_replicate. unfold is_byte. lia.
Qed.

(** Storing one more byte keeps the record in the verifying state. *)
Lemma verifying_store K tgt got b :
  verifying K tgt got → (S (length got) < PP_SHMPAGE_SHMKEYLIM K)%nat →
  verifying K
    (set_sockrofs (S (sockrofs tgt))
       (set_sockinbuf (<[sockrofs tgt := b]> (sockinbuf tgt)) tgt))
    (got ++ [b]).
Proof.
  intros (Hf & Hfr & Hk & Hkb & Hkl & Hlen & Hofs & Htake) Hlt.
  unfold verifying. simpl. repeat split; try done.
  - by rewrite length_insert.
  - rewrite length_app. simpl. lia.
  - rewrite length_app. simpl. rewrite Hofs.
    replace (length got + 1)%nat with (S (length got)) by lia.
    erewrite take_S_r.
    + rewrite take_insert_ge by lia. by rewrite Htake.
    + apply list_lookup_insert_eq. lia.
Qed.

(** A newline after input that, padded, differs from the expected key: the
    record is freed and nothing was written. *)
Lemma verify_run_mismatch K rest ticks :
  ∀ tgt got more,
    verifying K tgt got →
    arrived ticks = more ++ [newline] →
    newline ∉ more →
    Forall is_byte (got ++ more) →
    (length (got ++ more) < PP_SHMPAGE_SHMKEYLIM K)%nat →
    nul_padded K (got ++ more) ≠ clientkey tgt →
    ∃ tgt' tr,
      verify_run K ((io_tick <$> ticks) ++ rest) tgt = Some (tgt', tr)
      ∧ freed tgt' = true ∧ written tr = [] ∧ c_frameserver_free ∈ tr.
Proof.
  induction ticks as [|t ticks IH]; intros tgt got more Hv Harr Hnl Hb Hlen Hne.
  { by destruct more. }
  pose proof Hv as (Hf & Hfr & Hk & Hkb & Hkl & Hbl & Hofs & Htake).
  rewrite length_app in Hlen.
  rewrite fmap_cons, <-app_comm_cons, verify_run_cons by done.
  destruct t as [b|]; simpl.
  - unfold arrived in Harr. simpl in Harr. destruct more as [|m more].
    + (* the newline *)
      simpl in Harr. injection Harr as -> Harr. rewrite app_nil_r in *.
      destruct (socketverify_mismatch K tgt Hk) as (tgt' & -> & Hfreed).
      * simpl in Hlen. lia.
      * rewrite (memset_zero_padded K tgt got) by (done || simpl in Hlen; lia).
        apply not_true_is_false. intros Hcmp.
        simpl in Hlen.
        apply memcmp_nodep_true in Hcmp;
          [| by apply nul_padded_bytes | done
           | rewrite nul_padded_length by lia; done | lia ].
        rewrite !take_ge in Hcmp by (rewrite ?nul_padded_length; lia).
        by apply Hne.
      * simpl. rewrite verify_run_freed by done. simpl.
        eexists _, _. split; [reflexivity|]. split; [done|].
        split; [reflexivity|]. in_list.
    + (* a byte of the input *)
      simpl in Harr. injection Harr as -> Harr.
      assert (m ≠ newline) by (intros ->; apply Hnl; in_list).
      simpl in Hlen.
      rewrite socketverify_store by (done || lia). simpl.
      destruct (IH _ (got ++ [m]) more (verifying_store K tgt got m Hv ltac:(lia)))
        as (tgt' & tr & -> & Hfreed & Hw & Hin).
      * done.
      * intros Hin. apply Hnl. by apply list_elem_of_further.
      * by rewrite <-app_assoc.
      * rewrite <-app_assoc, length_app. simpl. lia.
      * by rewrite <-app_assoc.
      * simpl. eexists _, _. split; [reflexivity|]. split; [done|].
        split; [exact Hw|]. by do 2 apply list_elem_of_further.
  - (* nothing arrived *)
    rewrite socketverify_idle by done. simpl.
    destruct (IH tgt got more Hv Harr Hnl Hb ltac:(rewrite length_app; lia) Hne)
      as (tgt' & tr & -> & Hfreed & Hw & Hin).
    simpl. eexists _, _. split; [reflexivity|]. split; [done|].
    split; [exact Hw|]. by apply list_elem_of_further.
Qed.

(** Input without a newline that reaches the key limit: the record is freed
    and nothing was written. *)
Lemma verify_run_overflow K rest ticks :
  ∀ tgt got,
    verifying K tgt got →
    (length got < PP_SHMPAGE_SHMKEYLIM K)%nat →
    newline ∉ arrived ticks →
    (PP_SHMPAGE_SHMKEYLIM K ≤ length (got ++ arrived ticks))%nat →
    ∃ tgt' tr,
      verify_run K ((io_tick <$> ticks) ++ rest) tgt = Some (tgt', tr)
      ∧ freed tgt' = true ∧ written tr = [] ∧ c_frameserver_free ∈ tr.
Proof.
  induction ticks as [|t ticks IH]; intros tgt got Hv Hlt Hnl Hlen.
  { unfold arrived in Hlen. simpl in Hlen. rewrite app_nil_r in Hlen. lia. }
  pose proof Hv as (Hf & Hfr & Hk & Hkb & Hkl & Hbl & Hofs & Htake).
  rewrite fmap_cons, <-app_comm_cons, verify_run_cons by done.
  destruct t as [b|]; simpl.
  - unfold arrived in Hnl, Hlen. simpl in Hnl, Hlen.
    assert (b ≠ newline) by (intros ->; apply Hnl; in_list).
    destruct (decide (S (length got) < PP_SHMPAGE_SHMKEYLIM K)%nat) as [Hs|Hs].
    + rewrite socketverify_store by (done || lia). simpl.
      destruct (IH _ (got ++ [b]) (verifying_store K tgt got b Hv Hs))
        as (tgt' & tr & -> & Hfreed & Hw & Hin).
      * rewrite length_app. simpl. lia.
      * intros Hin. apply Hnl. by apply list_elem_of_further.
      * by rewrite <-app_assoc.
      * simpl. eexists _, _. split; [reflexivity|]. split; [done|].
        split; [exact Hw|]. by do 2 apply list_elem_of_further.
    + destruct (socketverify_overflow K tgt Hk b) as (tgt' & -> & Hfreed);
        [done|lia|].
      simpl. rewrite verify_run_freed by done. simpl.
      eexists _, _. split; [reflexivity|]. split; [done|].
      split; [reflexivity|]. in_list.
  - rewrite socketverify_idle by done. simpl.
    destruct (IH tgt got Hv Hlt Hnl Hlen) as (tgt' & tr & -> & Hfreed & Hw & Hin).
    simpl. eexists _, _. split; [reflexivity|]. split; [done|].
    split; [exact Hw|]. by apply list_elem_of_further.
Qed.

(** [snprintf] when the line and its terminator fit into the buffer. *)
Lemma snprintf_line_fits buf size s :
  (strlen s + 1 < size)%nat →
  snprintf_line buf size s
  = ((bytes_of_string s ++ [newline]) ++ [0] ++ drop (strlen s + 2) buf,
     S (strlen s)).
Proof.
  intros Hfit. unfold snprintf_line. destruct size as [|m]; [lia|].
  rewrite length_app, bytes_of_string_length. simpl length.
  rewrite take_ge by (rewrite length_app, bytes_of_string_length; simpl; lia).
  rewrite length_app, bytes_of_string_length. simpl length.
  repeat f_equal; lia.
Qed.

Lemma send_key_loop_done fd buf ws rtc wofs :
  send_key_loop fd buf ws rtc 0 wofs = Some (rtc, []).
Proof.
  destruct ws; simpl; by rewrite andb_false_r.
Qed.

(** A socket that takes the whole line in the first [write]: the line is the
    one thing written and the record becomes ready. *)
Lemma send_key_sends K io tgt ws :
  (strlen (key (shm tgt)) + 1 < PP_SHMPAGE_SHMKEYLIM K)%nat →
  io_writes io = write_ok (S (strlen (key (shm tgt)))) :: ws →
  ∃ tgt' tr,
    send_key K io tgt = Some (tgt', tr)
    ∧ written tr = [bytes_of_string (key (shm tgt)) ++ [newline]]
    ∧ feed tgt' = ff_emptyframe ∧ freed tgt' = freed tgt
    ∧ (∀ fd, (c_read fd ∉ tr) ∧ (c_poll fd ∉ tr)).
Proof.
  intros Hfit Hws. unfold send_key.
  rewrite snprintf_line_fits by done. rewrite Hws.
  cbn [send_key_loop sockout_fd set_sockinbuf].
  rewrite !bool_decide_eq_true_2 by done. cbn [andb].
  rewrite Nat.sub_diag, send_key_loop_done. cbn [mbind option_bind].
  rewrite bool_decide_eq_false_2 by lia.
  rewrite drop_0, take_idemp.
  rewrite take_app_length'
    by (rewrite length_app, bytes_of_string_length; simpl; lia).
  eexists _, _. split; [reflexivity|]. split; [reflexivity|].
  split; [reflexivity|]. split; [reflexivity|].
  intros fd. split; intros Hin; invert_in Hin.
Qed.

(** C3: a record in the verifying state, nothing stored yet.
    With a non-empty expected key: a newline after input that, NUL-padded to
    the limit, differs from the key frees the record, and so does input that
    reaches the limit without a newline; in both cases no [write] was made on
    the socket.  With an empty expected key the first poll goes to [send_key]
    without polling or reading the socket, and on a socket that takes the
    line the segment key and a newline are what is written. *)
Theorem socketverify_gate K tgt :
  feed tgt = ff_socketverify → freed tgt = false → sockrofs tgt = 0%nat →
  Forall is_byte (clientkey tgt) →
  length (clientkey tgt) = PP_SHMPAGE_SHMKEYLIM K →
  length (sockinbuf tgt) = PP_SHMPAGE_SHMKEYLIM K →
  (byte_at (clientkey tgt) 0 ≠ 0 →
   ∀ ticks rest,
     (∀ inp, arrived ticks = inp ++ [newline] → newline ∉ inp →
             Forall is_byte inp → (length inp < PP_SHMPAGE_SHMKEYLIM K)%nat →
             nul_padded K inp ≠ clientkey tgt →
             ∃ tgt' tr,
               verify_run K ((io_tick <$> ticks) ++ rest) tgt = Some (tgt', tr)
               ∧ freed tgt' = true ∧ written tr = []
               ∧ c_frameserver_free ∈ tr)
     ∧ (newline ∉ arrived ticks →
        (PP_SHMPAGE_SHMKEYLIM K ≤ length (arrived ticks))%nat →
        ∃ tgt' tr,
          verify_run K ((io_tick <$> ticks) ++ rest) tgt = Some (tgt', tr)
          ∧ freed tgt' = true ∧ written tr = []
          ∧ c_frameserver_free ∈ tr))
  ∧ (byte_at (clientkey tgt) 0 = 0 →
     ∀ io,
       socketverify K FFUNC_POLL io tgt = send_key K io tgt
       ∧ ∀ ws,
           (strlen (key (shm tgt)) + 1 < PP_SHMPAGE_SHMKEYLIM K)%nat →
           io_writes io = write_ok (S (strlen (key (shm tgt)))) :: ws →
           ∃ tgt' tr,
             socketverify K FFUNC_POLL io tgt = Some (tgt', tr)
             ∧ written tr = [bytes_of_string (key (shm tgt)) ++ [newline]]
             ∧ feed tgt' = ff_emptyframe ∧ freed tgt' = false
             ∧ (∀ fd, (c_read fd ∉ tr) ∧ (c_poll fd ∉ tr))).
Proof.
  intros Hf Hfr Hofs Hkb Hkl Hbl. split.
  - intros Hk ticks rest.
    assert (verifying K tgt []) as Hv by (by repeat split).
    assert (0 < PP_SHMPAGE_SHMKEYLIM K)%nat as Hpos.
    { rewrite <-Hkl. destruct (clientkey tgt); [done|simpl; lia]. }
    split.
    + intros inp Harr Hnl Hib Hlen Hne.
      by apply (verify_run_mismatch K rest ticks tgt [] inp).
    + intros Hnl Hlen.
      by apply (verify_run_overflow K rest ticks tgt []).
  - intros Hk io.
    assert (socketverify K FFUNC_POLL io tgt = send_key K io tgt) as Heq.
    { unfold socketverify. by rewrite bool_decide_eq_true_2. }
    split; [done|]. intros ws Hfit Hws. rewrite Heq.
    destruct (send_key_sends K io tgt ws Hfit Hws)
      as (tgt' & tr & -> & Hw & Hfeed & Hfreed & Hno).
    exists tgt', tr. rewrite Hfreed. done.
Qed.

Lemma socketverify_gate_witness :
  (∃ tgt' tr,
     verify_run linux_consts
       (io_tick <$> (Some <$> bytes_of_string "AXCDEF" ++ [newline])) tgt_keyed
     = Some (tgt', tr)
     ∧ freed tgt' = true ∧ written tr = [] ∧ c_frameserver_free ∈ tr)
  ∧ (∃ tgt' tr,
       verify_run linux_consts
         (io_tick <$> (Some <$> replicate 40 65)) tgt_keyed
       = Some (tgt', tr)
       ∧ freed tgt' = true ∧ written tr = [] ∧ c_frameserver_free ∈ tr)
  ∧ (∃ tgt' tr,
       socketverify linux_consts FFUNC_POLL io_accepts tgt_open
       = Some (tgt', tr)
       ∧ written tr = [bytes_of_string "/arcan_1_2m" ++ [newline]]
       ∧ feed tgt' = ff_emptyframe ∧ freed tgt' = false
       ∧ (∀ fd, (c_read fd ∉ tr) ∧ (c_poll fd ∉ tr))).
Proof.
  assert (Forall is_byte (clientkey tgt_keyed)) as Hkb
    by (apply (bool_decide_unpack _); vm_compute; exact I).
  assert (Forall is_byte (clientkey tgt_open)) as Hob
    by (apply (bool_decide_unpack _); vm_compute; exact I).
  destruct (socketverify_gate linux_consts tgt_keyed
              eq_refl eq_refl eq_refl Hkb eq_refl eq_refl) as [Hreject _].
  destruct (socketverify_gate linux_consts tgt_open
              eq_refl eq_refl eq_refl Hob eq_refl eq_refl) as [_ Hopen].
  split; [|split].
  - destruct (Hreject ltac:(vm_compute; discriminate)
                (Some <$> bytes_of_string "AXCDEF" ++ [newline]) [])
      as [Hmis _].
    rewrite app_nil_r in Hmis.
    apply (Hmis (bytes_of_string "AXCDEF")).
    + reflexivity.
    + intros Hin. vm_compute in Hin. invert_in Hin.
    + apply (bool_decide_unpack _). vm_compute. exact I.
    + simpl. lia.
    + vm_compute. discriminate.
  - destruct (Hreject ltac:(vm_compute; discriminate)
                (Some <$> replicate 40 65) []) as [_ Hover].
    rewrite app_nil_r in Hover. apply Hover.
    + intros Hin. vm_compute in Hin. invert_in Hin.
    + vm_compute. lia.
  - destruct (Hopen eq_refl io_accepts) as [_ Hsend].
    apply (Hsend []); [simpl; lia | reflexivity].
Defined.

(** ** Subsegments (C4, C5) *)

(** Closes [l1 `suffix_of` l2] when [l2] is written out down to [l1]. *)
Ltac solve_suffix :=
  first [ reflexivity
        | apply suffix_cons_r; solve_suffix
        | apply suffix_app_r; solve_suffix ].

Lemma str_take_ge n s : (strlen s ≤ n)%nat → str_take n s = s.
Proof.
  unfold strlen. revert n. induction s as [|a s IH]; intros [|n] Hn;
    simpl in *; try done; try lia.
  rewrite IH by lia. done.
Qed.

(** C4, as stated, fails: on an alive parent, with [socketpair] failing, the
    spawn returns a new record and the announce goes onto the parent's queue,
    but no fd-transfer event precedes it - none is on the queue at all. *)
Lemma spawn_announce_without_transfer :
  let r := arcan_frameserver_spawn_subsegment linux_consts sp_no_socketpair
             (Some parent_alive) false 640 480 7 in
  alive (flags parent_alive) = true
  ∧ is_Some r.1.1
  ∧ (outqueue <$> r.1.2)
    = Some [newsegment_event linux_consts false 7 "/arcan_1_2m"]
  ∧ (events_of_kind TARGET_COMMAND_FDTRANSFER <$> (outqueue <$> r.1.2))
    = Some [].
Proof.
  vm_compute. split; [done|]. split; [by eexists|]. done.
Qed.

(** C4, amended: a spawn on an alive parent that returns a new record puts
    the new-segment announce on the parent's outbound queue exactly once, as
    the last event; it carries the input flag, the tag and the new segment
    key (as far as the message field holds it), and the new record has the
    parent's child process.  The fd-transfer event is on the queue, right
    before the announce and after the descriptor handoff, exactly when the
    handoff took place; otherwise the announce is enqueued alone.  A spawn
    that returns no record leaves the parent unchanged. *)
Theorem spawn_subsegment_announce K os ctx input hintw hinth tag :
  alive (flags ctx) = true →
  match arcan_frameserver_spawn_subsegment K os (Some ctx) input hintw hinth tag
  with
  | (Some newseg, Some ctx', tr) =>
    let ann := newsegment_event K input tag (os_shmkey (sp_shm os)) in
    outqueue ctx'
    = outqueue ctx ++ (if handed_off os then [fdtransfer_event] else []) ++ [ann]
    ∧ (handed_off os = true →
       ∃ sockp1,
         [c_pushhandle sockp1 (sockout_fd ctx);
          c_event_enqueue fdtransfer_event; c_event_enqueue ann]
         `suffix_of` tr)
    ∧ key (shm newseg) = os_shmkey (sp_shm os)
    ∧ ((strlen (os_shmkey (sp_shm os)) < target_message_size K)%nat →
       message ann = os_shmkey (sp_shm os))
    ∧ child newseg = child ctx
    ∧ subsegment (flags newseg) = true
  | (None, Some ctx', tr) => ctx' = ctx
  | _ => False
  end.
Proof.
  intros Ha. unfold arcan_frameserver_spawn_subsegment. rewrite Ha.
  cbn [negb].
  pose proof (shmalloc_key K (sp_shm os) (sp_alloc os) false None) as Hkey.
  destruct (shmalloc K (sp_shm os) (sp_alloc os) false None)
    as [[ok newseg] tr].
  simpl in Hkey. destruct ok; [|done].
  destruct (sp_addfobject os); [|done]. cbn [negb].
  unfold handed_off, arcan_frameserver_pushfd, arcan_frameserver_pushevent,
    arcan_event_enqueue, newsegment_event, fdtransfer_event.
  destruct input, (sp_socketpair os) as [[sockp0 sockp1]|];
    repeat case_bool_decide; try congruence; try destruct (sp_pushhandle os);
    simpl; rewrite ?Hkey, <-?app_assoc; simpl;
    (split; [reflexivity|]);
    (split; [first [ discriminate | done
                   | intros _; exists sockp1; solve_suffix ]|]);
    (split; [reflexivity|]);
    (split; [intros Hfit; apply str_take_ge; lia|]);
    split; reflexivity.
Qed.

Lemma spawn_subsegment_announce_witness :
  match arcan_frameserver_spawn_subsegment linux_consts sp_fine
          (Some parent_alive) false 640 480 7
  with
  | (Some newseg, Some ctx', tr) =>
    let ann := newsegment_event linux_consts false 7 "/arcan_1_2m" in
    outqueue ctx' = [] ++ [fdtransfer_event] ++ [ann]
    ∧ (true = true →
       ∃ sockp1,
         [c_pushhandle sockp1 4;
          c_event_enqueue fdtransfer_event; c_event_enqueue ann]
         `suffix_of` tr)
    ∧ key (shm newseg) = "/arcan_1_2m"
    ∧ ((strlen "/arcan_1_2m" < 78)%nat → message ann = "/arcan_1_2m")
    ∧ child newseg = 4242
    ∧ subsegment (flags newseg) = true
  | (None, Some ctx', tr) => ctx' = parent_alive
  | _ => False
  end.
Proof.
  apply (spawn_subsegment_announce linux_consts sp_fine parent_alive
           false 640 480 7).
  reflexivity.
Defined.

(** C5: the code lets a zero hint through.  With every call succeeding, a
    spawn with hints 0 and 0 writes width 0 and height 0 into the new control
    header, for any tag and either kind of segment; the guard of lines
    422-423 only replaces negative hints and hints above the maximum. *)
Theorem spawn_subsegment_zero_hint input tag :
  let r := arcan_frameserver_spawn_subsegment linux_consts sp_fine
             (Some parent_alive) input 0 0 tag in
  ((λ p, (w p, h p)) <$> (r.1.1 ≫= λ newseg, ptr (shm newseg))) = Some (0, 0)
  ∧ clamp_hint 0 (ARCAN_SHMPAGE_MAXW linux_consts) = 0
  ∧ clamp_hint (-1) (ARCAN_SHMPAGE_MAXW linux_consts) = 32
  ∧ clamp_hint 8193 (ARCAN_SHMPAGE_MAXW linux_consts) = 32.
Proof.
  destruct input; vm_compute; done.
Qed.

(** ** The outbound retry loop (C7) *)













(** ** Trace groups (C8) *)

(** C8: the table the parser walks has nine entries, without "transfer" and
    "debug", so the names after "event" land on lower bits than the usage
    text (and the specification) give them: "missing" sets bit 4, not 6,
    "btransfer" sets bit 8, not 10, and "transfer" and "debug" set nothing.
    The first four names agree. *)
Theorem tracestr_to_bitmap_shifted :
  tracestr_to_bitmap "missing" = Z.shiftl 1 4
  ∧ usage_value "missing" = Some (Z.shiftl 1 6)
  ∧ tracestr_to_bitmap "btransfer" = Z.shiftl 1 8
  ∧ usage_value "btransfer" = Some (Z.shiftl 1 10)
  ∧ tracestr_to_bitmap "transfer" = 0
  ∧ tracestr_to_bitmap "debug" = 0
  ∧ tracestr_to_bitmap <$> ["video"; "audio"; "system"; "event"]
    = [1; 2; 4; 8]
  ∧ tracestr_to_bitmap <$> ["alloc"; "crypto"; "vdetail"] = [32; 64; 128]
  ∧ length trace_groups = 9%nat.
Proof. vm_compute. done. Qed.

(** ** The keystore subcommand (C9) *)

(** C9: when the registration call fails, the subcommand still releases the
    keystore and returns [EXIT_SUCCESS], and nothing is written to stderr;
    this for any tag and host.  An invalid port, in contrast, is reported
    through [show_usage]. *)
Theorem keystore_register_failure_ignored tag host :
  ks_register ks_rejects = false
  ∧ main_keystore ks_rejects ["arcan-net"; "keystore"; tag; host]
    = Some (EXIT_SUCCESS,
            [n_keystore_open; n_keystore_register tag host 6680;
             n_keystore_release])
  ∧ diagnostics
      [n_keystore_open; n_keystore_register tag host 6680; n_keystore_release]
    = []
  ∧ diagnostics
      (apply_keystore_command ks_rejects [tag; host; "0"]).2
    = [n_usage (Some "Port argument is invalid or out of range")]
  ∧ ∀ env argv, (apply_keystore_command env argv).1 = EXIT_SUCCESS.
Proof.
  do 4 (split; [vm_compute; done|]).
  intros env argv.
  unfold apply_keystore_command, get_keystore_dirfd, show_usage.
  repeat first [ case_match | case_bool_decide ]; simplify_eq/=; reflexivity.
Qed.

(** * Further properties of the two files *)

(** ** Child supervision *)

Lemma waitpids_cons c tr :
  waitpids (c :: tr) = ((if is_waitpid c then 1 else 0) + waitpids tr)%nat.
Proof. unfold waitpids. rewrite filter_cons. by destruct c. Qed.

Lemma nanny_sleeps_cons c tr :
  nanny_sleeps (c :: tr)
  = ((if is_sup_sleep c then 1 else 0) + nanny_sleeps tr)%nat.
Proof. unfold nanny_sleeps. rewrite filter_cons. by destruct c. Qed.

(** Counts the calls of a trace that is written out up to a tail. *)
Ltac count_calls :=
  rewrite ?waitpids_cons, ?nanny_sleeps_cons;
  change (waitpids []) with 0%nat; change (nanny_sleeps []) with 0%nat;
  cbn [is_waitpid is_sup_sleep Nat.add kills omap].

Lemma nanny_loop_spec pid rvs :
  ∀ counter k,
    let tr := nanny_loop counter k pid rvs in
    (waitpids tr ≤ counter)%nat
    ∧ (kills tr = [] ∨ kills tr = [pid])
    ∧ (kills tr = [pid]
       ↔ (0 < counter)%nat ∧ ∀ j, (k ≤ j < k + counter)%nat → rvs j ≤ 0)
    ∧ (kills tr = [pid] → waitpids tr = counter
                          ∧ S (nanny_sleeps tr) = counter
                          ∧ last tr = Some (s_kill pid))
    ∧ (∀ j, (k ≤ j < k + counter)%nat → rvs j > 0 →
            (∀ i, (k ≤ i < j)%nat → rvs i ≤ 0) →
            waitpids tr = S (j - k) ∧ nanny_sleeps tr = (j - k)%nat
            ∧ kills tr = []).
Proof.
  induction counter as [|c IH]; intros k; cbn zeta.
  { cbn [nanny_loop]. count_calls. split; [lia|]. split; [by left|]. split.
    - split; [done|]. intros [? _]. lia.
    - split; [done|]. intros j Hj. lia. }
  cbn [nanny_loop]. case_bool_decide as Hrv.
  { (* reaped on this poll *)
    count_calls.
    split; [lia|]. split; [by left|]. split; [|split].
    - split; [done|]. intros [_ Hall]. specialize (Hall k). lia.
    - done.
    - intros j Hj Hpos Hbefore. destruct (decide (j = k)) as [->|].
      + rewrite Nat.sub_diag. done.
      + specialize (Hbefore k). lia. }
  case_bool_decide as Hc.
  { (* last round: kill *)
    subst c.
    count_calls.
    split; [lia|]. split; [by right|]. split; [|split].
    - split; [|done]. intros _. split; [lia|]. intros j Hj.
      assert (j = k) as -> by lia. lia.
    - done.
    - intros j Hj Hpos _. assert (j = k) as -> by lia. lia. }
  specialize (IH (S k)). cbn zeta in IH.
  destruct IH as (Hw & Hk & Hiff & Hkill & Hreap).
  set (tr := nanny_loop c (S k) pid rvs) in *.
  count_calls. change (kills (s_waitpid pid :: s_sleep 1 :: tr)) with (kills tr).
  split; [lia|]. split; [done|]. split; [|split].
  - rewrite Hiff. split.
    + intros [_ Hall]. split; [lia|]. intros j Hj.
      destruct (decide (j = k)) as [->|]; [lia|]. apply Hall. lia.
    + intros [_ Hall]. split; [lia|]. intros j Hj. apply Hall. lia.
  - intros Hkl. destruct (Hkill Hkl) as (Hwc & Hsc & Hlast).
    split; [lia|]. split; [lia|].
    by rewrite !last_cons, Hlast.
  - intros j Hj Hpos Hbefore.
    destruct (decide (j = k)) as [->|]; [lia|].
    destruct (Hreap j) as (Hwc & Hsc & Hkl);
      [lia|done|intros; apply Hbefore; lia|].
    split; [lia|]. split; [lia|done].
Qed.



Lemma kills_app tr tr' : kills (tr ++ tr') = kills tr ++ kills tr'.
Proof. apply omap_app. Qed.

(** The guard thread signals at most once, and exactly when none of its
    ten polls reaped the child. *)
Lemma nanny_thread_kills pid rvs :
  let tr := nanny_thread (Some pid) rvs in
  (kills tr = [] ∨ kills tr = [pid])
  ∧ (kills tr = [pid] ↔ ∀ j, (j < 10)%nat → rvs j ≤ 0).
Proof.
  cbn zeta. unfold nanny_thread.
  destruct (nanny_loop_spec pid rvs 10 0) as (_ & Hk & Hiff & _).
  cbn zeta in *. rewrite kills_app.
  change (kills [s_free_pid]) with (@nil Z). rewrite app_nil_r.
  split; [done|]. rewrite Hiff. split.
  - intros [_ Hall] j Hj. apply Hall. lia.
  - intros Hall. split; [lia|]. intros j Hj. apply Hall. lia.
Qed.


(** X2: for a record that is not a subsegment and has a child pid above 1,
    [arcan_frameserver_killchild] leaves the environment switch checked; once
    checked, the switch is not read again and stays as it is.  With the guard
    disabled nothing is started and nothing is signalled.  Otherwise the
    child is sent SIGKILL - once - exactly when the guard thread could not be
    created or none of the thread's ten polls reaped it. *)
Theorem killchild_guard os st src :
  subsegment (flags src) = false → child src > 1 →
  let r := arcan_frameserver_killchild os st (Some src) in
  let st' := r.1.1 in
  let all := r.1.2 ++ r.2 in
  env_checked st' = true
  ∧ (env_checked st = true → st' = st ∧ s_getenv_nonanny ∉ r.1.2)
  ∧ (no_nanny st = true → no_nanny st' = true)
  ∧ (no_nanny st' = true → all = r.1.2 ∧ kills all = []
                            ∧ s_pthread_create ∉ all)
  ∧ (no_nanny st' = false →
     (kills all = [] ∨ kills all = [child src])
     ∧ (kills all = [child src]
        ↔ kc_pthread os ≠ 0 ∨ ∀ j, (j < 10)%nat → kc_waitpid os j ≤ 0)).
Proof.
  intros Hsub Hchild. cbn zeta. unfold arcan_frameserver_killchild.
  rewrite Hsub, bool_decide_eq_false_2 by lia.
  destruct (nanny_thread_kills (child src) (kc_waitpid os)) as (Hk & Hiff).
  cbn zeta in Hk, Hiff.
  destruct st as [checked nonanny].
  destruct checked, nonanny, (kc_env_set os); cbn -[nanny_thread];
    repeat case_bool_decide; cbn -[nanny_thread];
    rewrite ?app_nil_r;
    (split; [done|]); (split; [try done|]);
    try (intros _; split; [done|]; intros Hin; invert_in Hin);
    (split; [done|]); (split; [try done|]);
    try (intros _; split; [done|]; split; [done|];
         intros Hin; invert_in Hin);
    try (intros _; split; [by right|]; split; [by left|done]);
    try (intros _; split; [done|]; rewrite Hiff; split;
         [by right | by intros [?|?]]);
    done.
Qed.

Lemma killchild_guard_witness :
  let r := arcan_frameserver_killchild os_guarded statics_unchecked
             (Some parent_alive) in
  env_checked r.1.1 = true ∧ kills (r.1.2 ++ r.2) = [4242].
Proof.
  destruct (killchild_guard os_guarded statics_unchecked parent_alive)
    as (Hchecked & _ & _ & _ & Hkill).
  - reflexivity.
  - simpl. lia.
  - split; [exact Hchecked|].
    destruct (Hkill eq_refl) as [_ Hiff]. apply Hiff.
    right. intros j _. unfold os_guarded, never_reaped. simpl. lia.
Defined.

(** X3: [arcan_frameserver_validchild] reports a record without the alive
    flag as dead without any call.  For a record with a child pid other than
    the broken-handle sentinel it makes one non-blocking [waitpid] and no
    [poll], and reports the child dead exactly when [waitpid] returns that
    pid: 0, -1 and any other value count as alive. *)
Theorem validchild_authoritative p rv src :
  child src ≠ BROKEN_PROCESS_HANDLE →
  (alive (flags src) = false →
   arcan_frameserver_validchild p rv (Some src) = (false, []))
  ∧ (alive (flags src) = true →
     (arcan_frameserver_validchild p rv (Some src)).2 = [s_waitpid (child src)]
     ∧ ((arcan_frameserver_validchild p rv (Some src)).1 = false
        ↔ rv = child src)).
Proof.
  intros Hchild. unfold arcan_frameserver_validchild.
  split; intros ->; cbn [negb]; [done|].
  rewrite bool_decide_eq_false_2 by done.
  case_bool_decide; simpl; split; try done; split; done.
Qed.

Lemma validchild_authoritative_witness :
  (arcan_frameserver_validchild poll_quiet (-1) (Some parent_alive)).1 = true
  ∧ (arcan_frameserver_validchild poll_quiet 4242 (Some parent_alive)).1 = false.
Proof.
  destruct (validchild_authoritative poll_quiet (-1) parent_alive)
    as [_ Herr]; [simpl; unfold BROKEN_PROCESS_HANDLE; lia|].
  destruct (validchild_authoritative poll_quiet 4242 parent_alive)
    as [_ Hdead]; [simpl; unfold BROKEN_PROCESS_HANDLE; lia|].
  split.
  - destruct (Herr eq_refl) as [_ Hiff].
    destruct (arcan_frameserver_validchild poll_quiet (-1) (Some parent_alive)).1
      eqn:Hv; [done|].
    exfalso. assert (-1 = child parent_alive) as Heq by (by apply Hiff).
    simpl in Heq. lia.
  - destruct (Hdead eq_refl) as [_ Hiff]. by apply Hiff.
Defined.

(** ** More on [shmalloc] and [arcan_frameserver_dropshared] *)

Lemma strlen_nonempty k : k ≠ EmptyString ↔ strlen k ≠ 0%nat.
Proof. destruct k; unfold strlen; simpl; split; intros; (done || lia). Qed.

Lemma append_strlen s t : strlen (s +:+ t) = (strlen s + strlen t)%nat.
Proof. unfold strlen. induction s; simpl; auto. Qed.

(** What the named-socket block does when it falls through. *)
Lemma shmalloc_listen_inr K os ctx optkey ctx' tr :
  shmalloc_listen K os ctx optkey = inr (ctx', tr) →
  ∃ k path,
    optkey = Some k ∧ listener_path K os k = Some path
    ∧ ctx' = set_sockaddr (Some (c_str path))
               (set_sockout_fd (os_socket os) ctx)
    ∧ tr = [c_socket; c_fcntl_cloexec (os_socket os);
            c_unlink (c_str path); c_bind (os_socket os) path;
            c_fchmod (os_socket os) (ARCAN_SHM_UMASK K);
            c_listen (os_socket os) 1].
Proof.
  unfold shmalloc_listen, listener_path, prefix_kind_of.
  destruct optkey as [k|]; [|done].
  repeat first [ case_bool_decide | case_match ]; simplify_eq/=;
    intros; simplify_eq; eexists _, _; done.
Qed.

(** The block falls through exactly when the listener can be set up. *)
Lemma shmalloc_listen_ok K os ctx optkey :
  (∃ r, shmalloc_listen K os ctx optkey = inr r) ↔ listener_ok K os optkey.
Proof.
  unfold shmalloc_listen, listener_ok, prefix_kind_of.
  destruct optkey as [k|]; [|split; [by intros [? ?]|by intros (? & ? & _)]].
  destruct (on_linux K && Ascii.eqb (str_head (ARCAN_SHM_PREFIX K)) Ascii.zero)
    eqn:Habs;
    [|destruct (negb (Ascii.eqb (str_head (ARCAN_SHM_PREFIX K)) "/")) eqn:Hhome;
      [destruct (os_home os) as [home|] eqn:Hh|]];
    repeat case_bool_decide; simpl; split;
    try (by intros [? ?]);
    try (intros _; exists k; repeat split; try done;
         try (by apply strlen_nonempty); try lia;
         try (intros _; eexists; split; [done|lia]); fail);
    try (intros (k' & ? & Hne & Hlen & Hsock & Hhm & Hbind); simplify_eq;
         try (apply strlen_nonempty in Hne);
         try (destruct Hhm as (home' & ? & ?); [done|]; simplify_eq);
         try done; try lia; by eexists).
Qed.

#[local] Arguments shmalloc_listen : simpl never.

(** Splits [shmalloc] along the outcome of the named-socket block. *)
Ltac shmalloc_by_listen K os ctx ns optkey :=
  unfold shmalloc; rewrite shmalloc_semnames_eq; cbn zeta;
  lazymatch goal with
  | |- context [shmalloc_listen K os ?c optkey] =>
    pose proof (shmalloc_listen_ok K os c optkey) as Hok;
    pose proof (shmalloc_listen_inr K os c optkey) as Hinr;
    destruct ns;
    [ destruct (shmalloc_listen K os c optkey) as [ltr|[lctx ltr]] eqn:Hl;
      [ | destruct (Hinr _ _ eq_refl) as (lk & lpath & -> & Hpath & -> & ->) ]
    | clear Hok Hinr ]
  end.

(** When [shmalloc] succeeds, and what the record then holds. *)
Lemma shmalloc_ok_iff K os ctx ns optkey :
  let r := shmalloc K os ctx ns optkey in
  (r.1.1 = true
   ↔ os_ftruncate os ≠ -1 ∧ os_mmap os = true
     ∧ (ns = true → listener_ok K os optkey))
  ∧ (r.1.1 = true →
     shm r.1.2 = {| key := os_shmkey os; shmsize := ARCAN_SHMPAGE_START_SZ K;
                    handle := os_shmfd os; ptr := Some (fresh_page K os) |}
     ∧ segment_size (fresh_page K os) = shmsize (shm r.1.2))
  ∧ (r.1.1 = false → ptr (shm r.1.2) = ptr (shm ctx)).
Proof.
  cbn zeta. shmalloc_by_listen K os ctx ns optkey.
  - (* the listener could not be set up *)
    simpl. split; [|done]. split; [done|].
    intros (_ & _ & Hlis). destruct (proj2 Hok (Hlis eq_refl)) as [? ?]. done.
  - (* listening *)
    assert (listener_ok K os (Some lk)) by (apply Hok; by eexists).
    case_bool_decide; [simpl; split; [|done]; split; [done|tauto]|].
    destruct (os_mmap os); simpl.
    + split; [by split|]. done.
    + split; [|done]. split; [done|]. by intros (_ & ? & _).
  - (* no listener asked for *)
    case_bool_decide; [simpl; split; [|done]; split; [done|tauto]|].
    destruct (os_mmap os); simpl.
    + split; [by split|]. done.
    + split; [|done]. split; [done|]. by intros (_ & ? & _).
Qed.

(** The calls of a successful [shmalloc]. *)
Lemma shmalloc_ok_calls K os ctx ns optkey :
  (shmalloc K os ctx ns optkey).1.1 = true →
  let r := shmalloc K os ctx ns optkey in
  let head :=
    [c_findshmkey; c_sem_open (store_last (os_shmkey os) "v");
     c_sem_open (store_last (os_shmkey os) "a");
     c_sem_open (store_last (os_shmkey os) "e")] in
  let tail :=
    [c_ftruncate (os_shmfd os) (ARCAN_SHMPAGE_START_SZ K);
     c_mmap (os_shmfd os) (ARCAN_SHMPAGE_START_SZ K); c_free_work] in
  (ns = true →
   ∃ k path,
     optkey = Some k ∧ listener_path K os k = Some path
     ∧ sockaddr r.1.2 = Some (c_str path)
     ∧ sockout_fd r.1.2 = os_socket os
     ∧ r.2 = head ++ [c_socket; c_fcntl_cloexec (os_socket os);
                      c_unlink (c_str path); c_bind (os_socket os) path;
                      c_fchmod (os_socket os) (ARCAN_SHM_UMASK K);
                      c_listen (os_socket os) 1] ++ tail)
  ∧ (ns = false →
     sockaddr r.1.2 = sockaddr ctx ∧ sockout_fd r.1.2 = sockout_fd ctx
     ∧ r.2 = head ++ tail).
Proof.
  cbn zeta. shmalloc_by_listen K os ctx ns optkey.
  - done.
  - case_bool_decide; [done|]. destruct (os_mmap os); [|done].
    simpl. intros _. split; [|done]. intros _.
    exists lk, lpath. done.
  - case_bool_decide; [done|]. destruct (os_mmap os); [|done].
    simpl. intros _. split; done.
Qed.

(** X4: [shmalloc] returns true exactly when [ftruncate] and [mmap] succeed
    and, if a named listener is asked for, the listener could be set up.  On
    success the record holds the key, the start size and the descriptor of
    the object, and the zeroed page carries the dead-man flag, the parent
    pid, the version, the cookie and a segment size equal to the recorded
    size; on failure the record's mapping is what it was before. *)
Theorem shmalloc_success_iff K os ctx ns optkey :
  let r := shmalloc K os ctx ns optkey in
  (r.1.1 = true
   ↔ os_ftruncate os ≠ -1 ∧ os_mmap os = true
     ∧ (ns = true → listener_ok K os optkey))
  ∧ (r.1.1 = true →
     shm r.1.2 = {| key := os_shmkey os; shmsize := ARCAN_SHMPAGE_START_SZ K;
                    handle := os_shmfd os; ptr := Some (fresh_page K os) |}
     ∧ segment_size (fresh_page K os) = shmsize (shm r.1.2))
  ∧ (r.1.1 = false → ptr (shm r.1.2) = ptr (shm ctx)).
Proof. exact (shmalloc_ok_iff K os ctx ns optkey). Qed.

(** X5: the calls of a successful [shmalloc], in order.  With a named
    listener whose path leaves room for its terminator in [sun_path]: the
    key lookup, the three [sem_open], one socket with close-on-exec, the
    removal of a stale file at the listener's path right before the bind to
    that path, the mode, [listen] with a backlog of 1, then [ftruncate] and
    [mmap]; the record holds that socket and the path.  (A HOME-relative
    path that fills [sun_path] has no terminator, and what [unlink] and
    [strdup] then read is not determined by the path.)  Without a named
    listener no socket call is made and the record's socket and path are
    untouched. *)
Theorem shmalloc_success_calls K os ctx ns optkey :
  (shmalloc K os ctx ns optkey).1.1 = true →
  let r := shmalloc K os ctx ns optkey in
  let head :=
    [c_findshmkey; c_sem_open (store_last (os_shmkey os) "v");
     c_sem_open (store_last (os_shmkey os) "a");
     c_sem_open (store_last (os_shmkey os) "e")] in
  let tail :=
    [c_ftruncate (os_shmfd os) (ARCAN_SHMPAGE_START_SZ K);
     c_mmap (os_shmfd os) (ARCAN_SHMPAGE_START_SZ K); c_free_work] in
  (ns = true →
   ∃ k path,
     optkey = Some k ∧ listener_path K os k = Some path
     ∧ sockout_fd r.1.2 = os_socket os
     ∧ ((strlen path < sun_path_size K)%nat →
        sockaddr r.1.2 = Some (c_str path)
        ∧ r.2 = head ++ [c_socket; c_fcntl_cloexec (os_socket os);
                         c_unlink (c_str path); c_bind (os_socket os) path;
                         c_fchmod (os_socket os) (ARCAN_SHM_UMASK K);
                         c_listen (os_socket os) 1] ++ tail))
  ∧ (ns = false →
     sockaddr r.1.2 = sockaddr ctx ∧ sockout_fd r.1.2 = sockout_fd ctx
     ∧ r.2 = head ++ tail).
Proof.
  intros Hok. cbn zeta.
  destruct (shmalloc_ok_calls K os ctx ns optkey Hok) as [Hnamed Hplain].
  split; [|exact Hplain].
  intros Hns.
  destruct (Hnamed Hns) as (k & path & Hk & Hpath & Haddr & Hfd & Htr).
  exists k, path. split; [exact Hk|]. split; [exact Hpath|].
  split; [exact Hfd|]. intros _. split; [exact Haddr|exact Htr].
Qed.

Lemma shmalloc_success_calls_witness :
  let r := shmalloc linux_consts os_fine (fresh_frameserver linux_consts)
             true (Some "demo") in
  sockaddr r.1.2 = Some "/home/u/.arcan_demo"
  ∧ c_bind 6 "/home/u/.arcan_demo" ∈ r.2.
Proof.
  destruct (shmalloc_success_calls linux_consts os_fine
              (fresh_frameserver linux_consts) true (Some "demo") eq_refl)
    as [Hnamed _].
  destruct (Hnamed eq_refl) as (k & path & Hk & Hpath & _ & Hterm).
  injection Hk as <-. vm_compute in Hpath. injection Hpath as <-.
  destruct Hterm as [Haddr Htr]; [vm_compute; lia|].
  split; [exact Haddr|]. rewrite Htr. in_list.
Defined.

(** X6: the path a successful [shmalloc] binds is never longer than
    [sun_path]; with an abstract or absolute prefix it leaves room for the
    terminator, with a HOME-relative prefix it is HOME, a slash, the prefix
    and the key, and it may fill [sun_path] completely, since the length
    check does not count the slash. *)
Theorem shmalloc_bound_path K os ctx optkey fd path :
  (shmalloc K os ctx true optkey).1.1 = true →
  c_bind fd path ∈ (shmalloc K os ctx true optkey).2 →
  (strlen path ≤ sun_path_size K)%nat
  ∧ (prefix_kind_of K ≠ prefix_home →
     (strlen path ≤ sun_path_size K - 1)%nat)
  ∧ (prefix_kind_of K = prefix_home →
     ∃ home k, os_home os = Some home ∧ optkey = Some k
               ∧ path = home +:+ "/" +:+ ARCAN_SHM_PREFIX K +:+ k
               ∧ strlen path
                 = (strlen home + 1 + strlen (ARCAN_SHM_PREFIX K) + strlen k)%nat).
Proof.
  intros Hok Hin.
  pose proof (shmalloc_ok_iff K os ctx true optkey) as [Hiff _].
  cbn zeta in Hiff. apply Hiff in Hok as Hcond.
  destruct Hcond as (_ & _ & Hlis). specialize (Hlis eq_refl).
  destruct (shmalloc_ok_calls K os ctx true optkey Hok) as [Hnamed _].
  destruct (Hnamed eq_refl) as (k & p & -> & Hpath & _ & _ & Htr).
  rewrite Htr in Hin. invert_in Hin. simplify_eq.
  destruct Hlis as (k' & Hk & Hne & Hlen & _ & Hhome & _). simplify_eq.
  apply strlen_nonempty in Hne.
  unfold listener_path in Hpath.
  destruct (prefix_kind_of K) eqn:Hkind; simplify_eq/=.
  - rewrite append_strlen. split; [lia|]. split; [lia|done].
  - destruct (Hhome eq_refl) as (home & Hh & Hhl). rewrite Hh in Hpath.
    simplify_eq/=. rewrite !append_strlen.
    change (strlen "/") with 1%nat.
    split; [lia|]. split; [done|]. intros _.
    exists home, k'. repeat split; try done. lia.
  - rewrite append_strlen. split; [lia|]. split; [lia|done].
Qed.

Lemma shmalloc_bound_path_witness :
  (strlen "/home/u/.arcan_demo" ≤ 108)%nat
  ∧ ∃ home k, Some "/home/u" = Some home ∧ Some "demo" = Some k
              ∧ "/home/u/.arcan_demo" = home +:+ "/" +:+ ".arcan_" +:+ k
              ∧ strlen "/home/u/.arcan_demo"
                = (strlen home + 1 + strlen ".arcan_" + strlen k)%nat.
Proof.
  destruct (shmalloc_bound_path linux_consts os_fine
              (fresh_frameserver linux_consts) (Some "demo") 6
              "/home/u/.arcan_demo") as (Hlen & _ & Hhome).
  - reflexivity.
  - vm_compute. in_list.
  - split; [exact Hlen|]. apply Hhome. reflexivity.
Defined.

(** X7: when [ftruncate] fails, [shmalloc] returns false right after the
    warning: it drops no semaphore, closes and unlinks nothing and does not
    release its work buffer, and a listener set up in the same call stays
    bound and recorded. *)
Theorem shmalloc_truncate_failure K os ctx ns optkey :
  os_ftruncate os = -1 →
  (ns = true → listener_ok K os optkey) →
  let r := shmalloc K os ctx ns optkey in
  r.1.1 = false
  ∧ last r.2 = Some c_warning
  ∧ (∀ work, c_dropsemaphores_keyed work ∉ r.2)
  ∧ (c_free_work ∉ r.2)
  ∧ closed_fds r.2 = [] ∧ shm_unlinked r.2 = []
  ∧ handle (shm r.1.2) = handle (shm ctx)
  ∧ (ns = true → c_listen (os_socket os) 1 ∈ r.2
                 ∧ sockout_fd r.1.2 = os_socket os
                 ∧ is_Some (sockaddr r.1.2)).
Proof.
  intros Htr Hlis. cbn zeta. shmalloc_by_listen K os ctx ns optkey.
  - destruct (proj2 Hok (Hlis eq_refl)) as [? ?]. done.
  - rewrite bool_decide_eq_true_2 by done. simpl.
    split; [done|]. split; [done|].
    split; [intros work Hin; invert_in Hin|].
    split; [intros Hin; invert_in Hin|].
    split; [done|]. split; [done|]. split; [done|].
    intros _. split; [in_list|]. split; [done|by eexists].
  - rewrite bool_decide_eq_true_2 by done. simpl.
    split; [done|]. split; [done|].
    split; [intros work Hin; invert_in Hin|].
    split; [intros Hin; invert_in Hin|].
    repeat split; done.
Qed.

Lemma shmalloc_truncate_failure_witness :
  let r := shmalloc linux_consts os_truncate_fails
             (fresh_frameserver linux_consts) true (Some "demo") in
  r.1.1 = false ∧ closed_fds r.2 = [] ∧ is_Some (sockaddr r.1.2).
Proof.
  destruct (shmalloc_truncate_failure linux_consts os_truncate_fails
              (fresh_frameserver linux_consts) true (Some "demo"))
    as (Hf & _ & _ & _ & Hc & _ & _ & Hl).
  - reflexivity.
  - intros _. exists "demo". repeat split; try done.
    + simpl. lia.
    + intros _. exists "/home/u". split; [done|]. simpl. lia.
  - split; [exact Hf|]. split; [exact Hc|]. by apply Hl.
Defined.

(** X8: tearing down a record that [shmalloc] has just filled unmaps the
    page only if the allocation mapped one, and does so before the name of
    the object is unlinked; the object and the three semaphores are unlinked
    also when the allocation failed and nothing was mapped. *)
Theorem dropshared_after_shmalloc K os ctx ns optkey rc :
  ptr (shm ctx) = None →
  let r := shmalloc K os ctx ns optkey in
  arcan_frameserver_dropshared (Some r.1.2) rc
  = (if r.1.1
     then c_munmap :: (if bool_decide (rc = -1) then [c_warning] else [])
     else [])
    ++ [c_shm_unlink (os_shmkey os);
        c_sem_unlink (store_last (os_shmkey os) "v");
        c_sem_unlink (store_last (os_shmkey os) "a");
        c_sem_unlink (store_last (os_shmkey os) "e");
        c_free_work; c_mem_free_key].
Proof.
  intros Hptr. cbn zeta.
  destruct (shmalloc_ok_iff K os ctx ns optkey) as (_ & Hs & Hf).
  cbn zeta in Hs, Hf. unfold arcan_frameserver_dropshared.
  rewrite !store_last_twice, shmalloc_key.
  destruct (shmalloc K os ctx ns optkey).1.1.
  - destruct (Hs eq_refl) as [-> _]. done.
  - rewrite (Hf eq_refl), Hptr. done.
Qed.

Lemma dropshared_after_shmalloc_witness :
  arcan_frameserver_dropshared
    (Some (shmalloc linux_consts os_map_fails (fresh_frameserver linux_consts)
             true (Some "demo")).1.2) 0
  = [c_shm_unlink "/arcan_1_2m"; c_sem_unlink "/arcan_1_2v";
     c_sem_unlink "/arcan_1_2a"; c_sem_unlink "/arcan_1_2e";
     c_free_work; c_mem_free_key].
Proof.
  apply (dropshared_after_shmalloc linux_consts os_map_fails
           (fresh_frameserver linux_consts) true (Some "demo") 0).
  reflexivity.
Defined.

(** ** More on [arcan_frameserver_pushfd] and the subsegment spawner *)

(** X9: [arcan_frameserver_pushfd] returns [ARCAN_OK] exactly when there is
    a record, the descriptor is not 0 and the handoff succeeded; exactly then
    one fd-transfer event is appended to the record's outbound queue, and
    otherwise the record is unchanged.  Descriptor 0 is refused before any
    call is made. *)
Theorem pushfd_result ok fsrv fd :
  let r := arcan_frameserver_pushfd ok (Some fsrv) fd in
  (r.1.1 = ARCAN_OK ↔ fd ≠ 0 ∧ ok = true)
  ∧ (r.1.1 = ARCAN_OK →
     r.1.2 = Some (set_outqueue (outqueue fsrv ++ [fdtransfer_event]) fsrv)
     ∧ r.2 = [c_pushhandle fd (sockout_fd fsrv);
              c_event_enqueue fdtransfer_event])
  ∧ (r.1.1 ≠ ARCAN_OK → r.1.2 = Some fsrv)
  ∧ (fd = 0 → r.2 = [])
  ∧ arcan_frameserver_pushfd ok None fd = (ARCAN_ERRC_BAD_ARGUMENT, None, []).
Proof.
  cbn zeta. unfold arcan_frameserver_pushfd, arcan_frameserver_pushevent,
    arcan_event_enqueue, fdtransfer_event.
  case_bool_decide; destruct ok; simpl; repeat split; try done;
    try (by intros [? ?]); try (by intros ?).
Qed.

(** Without a named listener [shmalloc] makes no call beyond the key
    lookup, the semaphores, [ftruncate], [mmap] and its own cleanup. *)
Lemma shmalloc_plain_calls K os ctx c :
  c ∈ (shmalloc K os ctx false None).2 →
  c = c_findshmkey ∨ (∃ n, c = c_sem_open n)
  ∨ (∃ a b, c = c_ftruncate a b) ∨ (∃ a b, c = c_mmap a b)
  ∨ c = c_warning ∨ (∃ n, c = c_dropsemaphores_keyed n) ∨ c = c_free_work.
Proof.
  unfold shmalloc. rewrite shmalloc_semnames_eq. cbn zeta.
  case_bool_decide; [|destruct (os_mmap os)]; simpl;
    intros Hin; invert_in Hin; naive_solver.
Qed.

(** The spawner in terms of what [shmalloc] did. *)
Lemma spawn_subsegment_none K os ctx input hintw hinth tag :
  alive (flags ctx) = true →
  (arcan_frameserver_spawn_subsegment K os (Some ctx) input hintw hinth tag).1.1
  = None ↔ ¬ spawn_ok os.
Proof.
  intros Ha. unfold arcan_frameserver_spawn_subsegment, spawn_ok.
  rewrite Ha. cbn [negb].
  destruct (shmalloc_ok_iff K (sp_shm os) (sp_alloc os) false None)
    as (Hiff & _). cbn zeta in Hiff.
  destruct (shmalloc K (sp_shm os) (sp_alloc os) false None) as [[ok seg] tr].
  simpl in Hiff. destruct ok.
  - destruct (proj1 Hiff eq_refl) as (? & ? & _).
    destruct (sp_addfobject os); cbn [negb].
    + repeat case_match; simplify_eq/=; (split; [done|]); intros Hn;
        exfalso; apply Hn; done.
    + split; [|done]. by intros _ (_ & _ & ?).
  - split; [|done]. intros _ (? & ? & _).
    assert (false = true); [|done]. apply Hiff. done.
Qed.

(** X10: the spawner makes no call at all for a missing or dead parent.  On
    an alive parent it returns a record exactly when the segment allocation
    and the video object succeed; when it returns none, the last call frees
    the record it had allocated, and no socket pair was made, nothing was
    handed off and nothing was enqueued. *)
Theorem spawn_subsegment_refusal K os ctx input hintw hinth tag :
  arcan_frameserver_spawn_subsegment K os None input hintw hinth tag
  = (None, None, [])
  ∧ (alive (flags ctx) = false →
     arcan_frameserver_spawn_subsegment K os (Some ctx) input hintw hinth tag
     = (None, Some ctx, []))
  ∧ (alive (flags ctx) = true →
     let r := arcan_frameserver_spawn_subsegment K os (Some ctx) input
                hintw hinth tag in
     (is_Some r.1.1 ↔ spawn_ok os)
     ∧ (r.1.1 = None →
        r.1.2 = Some ctx
        ∧ last r.2 = Some c_frameserver_free
        ∧ (c_socketpair ∉ r.2)
        ∧ (∀ fd sock, c_pushhandle fd sock ∉ r.2)
        ∧ (∀ ev, c_event_enqueue ev ∉ r.2))).
Proof.
  split; [done|]. split.
  { intros Ha. unfold arcan_frameserver_spawn_subsegment. by rewrite Ha. }
  intros Ha. cbn zeta.
  pose proof (spawn_subsegment_none K os ctx input hintw hinth tag Ha) as Hnone.
  split.
  { rewrite <-not_eq_None_Some. rewrite Hnone.
    split; [|by intros Hok Hn; apply Hn]. intros Hnn. unfold spawn_ok in *.
    destruct (decide (os_ftruncate (sp_shm os) = -1)) as [He|He];
      [exfalso; apply Hnn; by intros (? & _)|].
    destruct (os_mmap (sp_shm os)) eqn:Hm;
      [|exfalso; apply Hnn; by intros (_ & ? & _)].
    destruct (sp_addfobject os) eqn:Hv;
      [done|exfalso; apply Hnn; by intros (_ & _ & ?)]. }
  revert Hnone. unfold arcan_frameserver_spawn_subsegment.
  rewrite Ha. cbn [negb].
  destruct (shmalloc_trace_head K (sp_shm os) (sp_alloc os) false None)
    as (rest & Htr & _).
  pose proof (shmalloc_plain_calls K (sp_shm os) (sp_alloc os)) as Hfail.
  destruct (shmalloc K (sp_shm os) (sp_alloc os) false None) as [[ok seg] tr].
  simpl in Htr, Hfail. destruct ok.
  - destruct (sp_addfobject os); cbn [negb].
    + repeat case_match; simplify_eq/=; done.
    + intros _ _. simpl. split; [done|]. rewrite last_cons, !last_snoc.
      split; [done|].
      assert (∀ c, c ∈ tr → c = c_findshmkey ∨ (∃ n, c = c_sem_open n)
                            ∨ (∃ a b, c = c_ftruncate a b)
                            ∨ (∃ a b, c = c_mmap a b) ∨ c = c_warning
                            ∨ (∃ n, c = c_dropsemaphores_keyed n)
                            ∨ c = c_free_work) as Hcalls by apply Hfail.
      repeat split; intros; intros Hin;
        apply elem_of_cons in Hin as [?|Hin]; try done;
        rewrite !elem_of_app in Hin;
        destruct Hin as [[Hin|Hin]|Hin]; try (invert_in Hin; fail);
        apply Hcalls in Hin;
        destruct Hin as [?|[[? ?]|[(? & ? & ?)|[(? & ? & ?)|[?|[[? ?]|?]]]]]];
        done.
  - intros _ _. simpl. split; [done|]. rewrite last_cons, last_snoc.
    split; [done|].
    repeat split; intros; intros Hin;
      apply elem_of_cons in Hin as [?|Hin]; try done;
      rewrite !elem_of_app in Hin;
      destruct Hin as [Hin|Hin]; try (invert_in Hin; fail);
      apply Hfail in Hin;
      destruct Hin as [?|[[? ?]|[(? & ? & ?)|[(? & ? & ?)|[?|[[? ?]|?]]]]]];
      done.
Qed.

Lemma spawn_subsegment_refusal_witness :
  let r := arcan_frameserver_spawn_subsegment linux_consts
             {| sp_alloc := fresh_frameserver linux_consts;
                sp_shm := os_map_fails; sp_addfobject := true;
                sp_socketpair := Some (7, 8); sp_pushhandle := true |}
             (Some parent_alive) false 640 480 7 in
  r.1.1 = None ∧ r.1.2 = Some parent_alive
  ∧ last r.2 = Some c_frameserver_free.
Proof.
  destruct (spawn_subsegment_refusal linux_consts
              {| sp_alloc := fresh_frameserver linux_consts;
                 sp_shm := os_map_fails; sp_addfobject := true;
                 sp_socketpair := Some (7, 8); sp_pushhandle := true |}
              parent_alive false 640 480 7) as (_ & _ & Halive).
  destruct (Halive eq_refl) as [_ Hnone].
  assert (Hn : (arcan_frameserver_spawn_subsegment linux_consts
              {| sp_alloc := fresh_frameserver linux_consts;
                 sp_shm := os_map_fails; sp_addfobject := true;
                 sp_socketpair := Some (7, 8); sp_pushhandle := true |}
              (Some parent_alive) false 640 480 7).1.1 = None) by reflexivity.
  destruct (Hnone Hn) as (Hp & Hl & _).
  split; [exact Hn|]. split; [exact Hp|exact Hl].
Defined.

(** X11: a spawn that returns a record leaves it alive, marked as a
    subsegment with socket signalling, with the parent's pbo flag and source.
    An input segment is an encoder and gets no audio feed; any other segment
    is of unknown type and gets one.  The record keeps its half of the socket
    pair when one was made.  The header of its page is the one [shmalloc]
    filled, with the width and height that were also given to the video
    object: the hint where it is between 0 and the maximum, and 32
    otherwise. *)
Theorem spawn_subsegment_record K os ctx input hintw hinth tag :
  alive (flags ctx) = true → spawn_ok os →
  ∃ newseg ctx' tr,
    arcan_frameserver_spawn_subsegment K os (Some ctx) input hintw hinth tag
    = (Some newseg, Some ctx', tr)
    ∧ flags newseg = {| alive := true; pbo := pbo (flags ctx);
                        subsegment := true; socksig := true |}
    ∧ segid newseg = (if input then SEGID_ENCODER else SEGID_UNKNOWN)
    ∧ (c_audio_feed ∈ tr ↔ input = false)
    ∧ (input = false → has_audio newseg = true)
    ∧ source newseg = source ctx
    ∧ sockout_fd newseg
      = match sp_socketpair os with
        | Some (sockp0, _) => sockp0
        | None => sockout_fd (sp_alloc os)
        end
    ∧ (let pw := if bool_decide (0 ≤ hintw ≤ ARCAN_SHMPAGE_MAXW K)
                 then hintw else 32 in
       let ph := if bool_decide (0 ≤ hinth ≤ ARCAN_SHMPAGE_MAXH K)
                 then hinth else 32 in
       ptr (shm newseg)
       = Some {| dms := true; parent := os_getpid (sp_shm os);
                 major := ARCAN_VERSION_MAJOR K; minor := ARCAN_VERSION_MINOR K;
                 segment_size := ARCAN_SHMPAGE_START_SZ K;
                 cookie := os_cookie (sp_shm os); w := pw; h := ph |}
       ∧ c_video_addfobject pw ph ∈ tr).
Proof.
  intros Ha (Htr & Hmap & Hvid).
  unfold arcan_frameserver_spawn_subsegment. rewrite Ha. cbn [negb].
  destruct (shmalloc_ok_iff K (sp_shm os) (sp_alloc os) false None)
    as (Hiff & Hshm & _). cbn zeta in Hiff, Hshm.
  destruct (shmalloc_ok_calls K (sp_shm os) (sp_alloc os) false None)
    as [_ Hcalls]; [by apply Hiff|].
  destruct (Hcalls eq_refl) as (_ & Hfd & Hcalls').
  destruct (shmalloc K (sp_shm os) (sp_alloc os) false None) as [[ok seg] tr].
  simpl in *. assert (ok = true) as -> by (by apply Hiff).
  destruct (Hshm eq_refl) as [Hseg _]. rewrite Hvid. cbn [negb].
  subst tr. unfold clamp_hint, fresh_page in *.
  assert (∀ x m, (if bool_decide (x < 0) || bool_decide (x > m) then 32 else x)
                 = (if bool_decide (0 ≤ x ≤ m) then x else 32)) as Hclamp.
  { intros x m. repeat case_bool_decide; simpl; lia. }
  rewrite !Hclamp.
  destruct input, (sp_socketpair os) as [[sockp0 sockp1]|];
    unfold arcan_frameserver_pushfd, arcan_frameserver_pushevent;
    repeat case_bool_decide; try destruct (sp_pushhandle os);
    cbn -[bool_decide]; rewrite ?Hseg; cbn -[bool_decide];
    eexists _, _, _; (split; [reflexivity|]); cbn -[bool_decide];
    rewrite ?Hseg; cbn -[bool_decide];
    repeat split; try done; try (intros Hin; invert_in Hin; fail);
    try (intros _; in_list); try in_list.
Qed.

Lemma spawn_subsegment_record_witness :
  ∃ newseg ctx' tr,
    arcan_frameserver_spawn_subsegment linux_consts sp_fine
      (Some parent_alive) true 640 9000 7
    = (Some newseg, Some ctx', tr)
    ∧ segid newseg = SEGID_ENCODER
    ∧ (w <$> ptr (shm newseg)) = Some 640
    ∧ (h <$> ptr (shm newseg)) = Some 32.
Proof.
  destruct (spawn_subsegment_record linux_consts sp_fine parent_alive
              true 640 9000 7)
    as (newseg & ctx' & tr & Heq & _ & Hseg & _ & _ & _ & _ & Hpage & _).
  - reflexivity.
  - split; [simpl; lia|]. split; reflexivity.
  - exists newseg, ctx', tr. split; [exact Heq|]. split; [exact Hseg|].
    rewrite Hpage. split; reflexivity.
Defined.

(** ** More on the verifier *)

#[local] Arguments socketverify : simpl never.
#[local] Arguments send_key : simpl never.

Lemma arrived_some b ticks : arrived (Some b :: ticks) = b :: arrived ticks.
Proof. reflexivity. Qed.

(** Bytes without a newline that stay below the limit are stored one by one,
    with no write, and leave the record verifying. *)
Lemma verify_run_accumulate K rest ticks :
  ∀ tgt got,
    verifying K tgt got →
    newline ∉ arrived ticks →
    (length (got ++ arrived ticks) < PP_SHMPAGE_SHMKEYLIM K)%nat →
    ∃ tgt1 tr1,
      verifying K tgt1 (got ++ arrived ticks)
      ∧ written tr1 = []
      ∧ shm tgt1 = shm tgt ∧ sockout_fd tgt1 = sockout_fd tgt
      ∧ clientkey tgt1 = clientkey tgt ∧ sockaddr tgt1 = sockaddr tgt
      ∧ verify_run K ((io_tick <$> ticks) ++ rest) tgt
        = ('(t, tr') ← verify_run K rest tgt1; Some (t, tr1 ++ tr')).
Proof.
  induction ticks as [|t ticks IH]; intros tgt got Hv Hnl Hlen.
  { exists tgt, []. unfold arrived. simpl. rewrite app_nil_r.
    split; [done|]. repeat split; try done.
    by destruct (verify_run K rest tgt) as [[? ?]|]. }
  pose proof Hv as (Hf & Hfr & Hk & Hkb & Hkl & Hbl & Hofs & Htake).
  rewrite fmap_cons, <-app_comm_cons, verify_run_cons by done.
  destruct t as [b|]; cbn [io_tick].
  - rewrite arrived_some in Hnl, Hlen |- *.
    assert (b ≠ newline) by (intros ->; apply Hnl; in_list).
    rewrite length_app in Hlen. simpl in Hlen.
    rewrite socketverify_store by (done || lia). simpl.
    destruct (IH _ (got ++ [b])
                (verifying_store K tgt got b Hv ltac:(lia)))
      as (tgt1 & tr1 & Hv1 & Hw & Hshm & Hfd & Hck & Hsa & ->).
    + intros Hin. apply Hnl. by apply list_elem_of_further.
    + rewrite <-app_assoc, length_app. simpl. lia.
    + exists tgt1, ([c_poll (sockout_fd tgt); c_read (sockout_fd tgt)] ++ tr1).
      rewrite <-app_assoc in Hv1.
      split; [exact Hv1|]. repeat split; try done.
      destruct (verify_run K rest tgt1) as [[? ?]|]; simpl; [|done].
      done.
  - change (arrived (None :: ticks)) with (arrived ticks) in *.
    rewrite socketverify_idle by done. simpl.
    destruct (IH tgt got Hv Hnl Hlen)
      as (tgt1 & tr1 & Hv1 & Hw & Hshm & Hfd & Hck & Hsa & ->).
    exists tgt1, (c_poll (sockout_fd tgt) :: tr1).
    split; [exact Hv1|]. repeat split; try done.
    destruct (verify_run K rest tgt1) as [[? ?]|]; simpl; done.
Qed.

(** The two ways [send_key] ends. *)
Lemma send_key_cases K io tgt tgt' tr :
  send_key K io tgt = Some (tgt', tr) →
  let buf := (snprintf_line (sockinbuf tgt) (PP_SHMPAGE_SHMKEYLIM K)
                (key (shm tgt))).1 in
  tgt' = frameserver_free (set_sockinbuf buf tgt)
  ∨ tgt' = set_has_audio true (set_feed ff_emptyframe (set_sockinbuf buf tgt)).
Proof.
  unfold send_key.
  destruct (snprintf_line _ _ _) as [buf ntw]. cbn [fst].
  destruct (send_key_loop _ _ _ _ _ _) as [[rtc tr']|]; [|done].
  cbn [mbind option_bind]. case_bool_decide; intros; simplify_eq; auto.
Qed.

Lemma verify_run_ready K ios tgt :
  feed tgt = ff_emptyframe → verify_run K ios tgt = Some (tgt, []).
Proof.
  intros Hf. destruct ios; cbn [verify_run]; [done|].
  rewrite Hf. rewrite bool_decide_eq_false_2 by done.
  by rewrite orb_true_r.
Qed.

(** X12: the handshake that succeeds.  A record waits for a non-empty key;
    the bytes of the key arrive, in any number of ticks with idle ticks in
    between, and then the socket becomes readable and [read] stores a
    newline - or stores nothing at all, which the verifier does not tell
    apart.  If the socket then takes the line in one [write], the one thing
    ever written is the segment key and a newline, the record is ready with
    an audio feed attached, and later ticks no longer reach the verifier. *)
Theorem socketverify_accepts K tgt inp ticks last ws rest :
  verifying K tgt [] →
  clientkey tgt = nul_padded K inp →
  arrived ticks = inp → newline ∉ inp → Forall is_byte inp →
  (length inp < PP_SHMPAGE_SHMKEYLIM K)%nat →
  last = Some newline ∨ last = None →
  (strlen (key (shm tgt)) + 1 < PP_SHMPAGE_SHMKEYLIM K)%nat →
  ∃ tgt' tr,
    verify_run K
      ((io_tick <$> ticks)
       ++ io_ready last (write_ok (S (strlen (key (shm tgt)))) :: ws) :: rest)
      tgt
    = Some (tgt', tr)
    ∧ written tr = [bytes_of_string (key (shm tgt)) ++ [newline]]
    ∧ feed tgt' = ff_emptyframe ∧ freed tgt' = false
    ∧ has_audio tgt' = true.
Proof.
  intros Hv Hck Harr Hnl Hb Hlen Hlast Hfit.
  destruct (verify_run_accumulate K
              (io_ready last (write_ok (S (strlen (key (shm tgt)))) :: ws)
               :: rest) ticks tgt [] Hv)
    as (tgt1 & tr1 & Hv1 & Hw1 & Hshm & Hfd & Hck1 & _ & ->).
  { by rewrite Harr. }
  { simpl. by rewrite Harr. }
  simpl in Hv1. rewrite Harr in Hv1.
  pose proof Hv1 as (Hf & Hfr & Hk & Hkb & Hkl & Hbl & Hofs & Htake).
  rewrite verify_run_cons by done.
  assert (socketverify K FFUNC_POLL
            (io_ready last (write_ok (S (strlen (key (shm tgt)))) :: ws)) tgt1
          = '(t, tr') ← send_key K
                (io_ready last (write_ok (S (strlen (key (shm tgt)))) :: ws))
                (set_sockinbuf (nul_padded K inp) tgt1);
            Some (t, [c_poll (sockout_fd tgt1); c_read (sockout_fd tgt1)] ++ tr'))
    as ->.
  { unfold socketverify. rewrite bool_decide_eq_false_2 by done.
    cbn [io_ready io_poll io_read].
    change (fd_avail {| poll_sv := 1; poll_eintr := false;
                        poll_hangup := false |}) with (true, false).
    cbn iota.
    assert (default newline last = newline) as ->
      by (by destruct Hlast as [-> | ->]).
    rewrite bool_decide_eq_true_2 by done.
    rewrite (memset_zero_padded K tgt1 inp) by done.
    cbn [sockinbuf set_sockinbuf clientkey].
    rewrite Hck1, Hck.
    assert (memcmp_nodep (nul_padded K inp) (nul_padded K inp)
              (PP_SHMPAGE_SHMKEYLIM K) = true) as ->; [|done].
    apply memcmp_nodep_true; try done.
    - by apply nul_padded_bytes.
    - by apply nul_padded_bytes.
    - by rewrite nul_padded_length.
    - by rewrite nul_padded_length. }
  destruct (send_key_sends K
              (io_ready last (write_ok (S (strlen (key (shm tgt)))) :: ws))
              (set_sockinbuf (nul_padded K inp) tgt1) ws)
    as (tgt2 & tr2 & Hsend & Hw2 & Hfeed & Hfreed & _).
  { simpl. by rewrite Hshm. }
  { simpl. by rewrite Hshm. }
  rewrite Hsend.
  simpl. rewrite verify_run_ready by done. simpl.
  eexists _, _. split; [reflexivity|].
  rewrite app_nil_r, !written_app, Hw1.
  change (written (_ :: _ :: tr2)) with (written tr2). rewrite Hw2.
  cbn [shm set_sockinbuf freed] in *. rewrite Hshm.
  split; [done|]. split; [done|]. split; [by rewrite Hfreed|].
  destruct (send_key_cases K _ _ _ _ Hsend) as [Hd|Hr].
  - rewrite Hd in Hfeed. cbn in Hfeed. by rewrite Hf in Hfeed.
  - by rewrite Hr.
Qed.

Lemma socketverify_accepts_witness :
  ∃ tgt' tr,
    verify_run linux_consts
      ((io_tick <$> [Some 65; None; Some 66; Some 67; Some 68; Some 69; Some 70])
       ++ io_ready None [write_ok 12] :: []) tgt_keyed
    = Some (tgt', tr)
    ∧ written tr = [bytes_of_string "/arcan_1_2m" ++ [newline]]
    ∧ feed tgt' = ff_emptyframe ∧ freed tgt' = false
    ∧ has_audio tgt' = true.
Proof.
  apply (socketverify_accepts linux_consts tgt_keyed key_abcdef
           [Some 65; None; Some 66; Some 67; Some 68; Some 69; Some 70]
           None [] []).
  - repeat split; try reflexivity.
    + vm_compute. discriminate.
    + apply (bool_decide_unpack _). vm_compute. exact I.
  - reflexivity.
  - reflexivity.
  - intros Hin. vm_compute in Hin. invert_in Hin.
  - apply (bool_decide_unpack _). vm_compute. exact I.
  - vm_compute. lia.
  - by right.
  - vm_compute. lia.
Defined.

(** X13: while the verifier waits for a non-empty key, a [poll] that fails
    with anything but EINTR, or that reports error, hangup or an invalid
    descriptor, frees the record without a [read] or [write]; a [poll] that
    reports nothing, or that was interrupted, leaves the record exactly as it
    was. *)
Theorem socketverify_poll_outcomes K io tgt :
  byte_at (clientkey tgt) 0 ≠ 0 →
  let p := io_poll io in
  let fd := sockout_fd tgt in
  ((poll_sv p = -1 ∧ poll_eintr p = false)
   ∨ (poll_sv p ≠ -1 ∧ poll_sv p ≠ 0 ∧ poll_hangup p = true) →
   socketverify K FFUNC_POLL io tgt
   = Some (frameserver_free tgt, [c_poll fd; c_frameserver_free]))
  ∧ ((poll_sv p = -1 ∧ poll_eintr p = true) ∨ poll_sv p = 0 →
     socketverify K FFUNC_POLL io tgt = Some (tgt, [c_poll fd])).
Proof.
  intros Hk. cbn zeta. unfold socketverify, fd_avail.
  rewrite bool_decide_eq_false_2 by done.
  split.
  - intros [[Hsv He]|(H1 & H0 & Hh)].
    + rewrite bool_decide_eq_true_2, He by done. done.
    + rewrite !bool_decide_eq_false_2, Hh by done. done.
  - intros [[Hsv He]|Hsv].
    + rewrite bool_decide_eq_true_2, He by done. done.
    + rewrite bool_decide_eq_false_2 by lia.
      rewrite bool_decide_eq_true_2 by done. done.
Qed.

Lemma socketverify_poll_outcomes_witness :
  socketverify linux_consts FFUNC_POLL io_hangup tgt_keyed
  = Some (frameserver_free tgt_keyed, [c_poll 9; c_frameserver_free])
  ∧ socketverify linux_consts FFUNC_POLL io_idle tgt_keyed
    = Some (tgt_keyed, [c_poll 9]).
Proof.
  assert (byte_at (clientkey tgt_keyed) 0 ≠ 0) as Hk
    by (vm_compute; discriminate).
  split.
  - apply (socketverify_poll_outcomes linux_consts io_hangup tgt_keyed Hk).
    right. repeat split; simpl; (done || lia).
  - apply (socketverify_poll_outcomes linux_consts io_idle tgt_keyed Hk).
    by right.
Defined.

(** ** [send_key] *)

Lemma take_split (l : list Z) r n :
  take r (take n l) ++ take (n - r) (drop r l) = take n l.
Proof.
  destruct (decide (r ≤ n)%nat) as [Hle|Hgt].
  - rewrite take_drop_commute.
    replace (r + (n - r))%nat with n by lia. apply take_drop.
  - rewrite take_take, Nat.min_r by lia.
    replace (n - r)%nat with 0%nat by lia. by rewrite take_0, app_nil_r.
Qed.

(** What the write loop has done when it ends: the retry counter has not
    grown, and if it is still positive, the pieces written add up to the
    [ntw] bytes at [wofs]. *)
Lemma send_key_loop_sent fd buf writes :
  ∀ rtc ntw wofs rtc' tr,
    0 ≤ rtc →
    send_key_loop fd buf writes rtc ntw wofs = Some (rtc', tr) →
    0 ≤ rtc' ≤ rtc
    ∧ (∀ c, c ∈ tr → ∃ d, c = c_write fd d)
    ∧ (rtc' > 0 ∨ ntw = 0%nat →
       concat (written tr) = take ntw (drop wofs buf)).
Proof.
  induction writes as [|wr writes IH]; intros rtc ntw wofs rtc' tr Hrtc Hrun;
    cbn [send_key_loop] in Hrun.
  - destruct (bool_decide (rtc ≠ 0) && bool_decide (ntw ≠ 0%nat)) eqn:Hc;
      [done|]. simplify_eq.
    split; [lia|]. split; [intros c Hin; invert_in Hin|].
    intros Hpos. apply andb_false_iff in Hc as [Hc|Hc];
      apply bool_decide_eq_false in Hc.
    + assert (rtc' = 0) by lia. destruct Hpos as [?| ->]; [lia|done].
    + assert (ntw = 0%nat) as -> by lia. done.
  - destruct (bool_decide (rtc ≠ 0) && bool_decide (ntw ≠ 0%nat)) eqn:Hc.
    + apply andb_true_iff in Hc as [Hc1 Hc2].
      apply bool_decide_eq_true in Hc1, Hc2.
      destruct wr as [retryable|rc].
      * destruct (send_key_loop fd buf writes _ ntw wofs)
          as [[rtc1 tr1]|] eqn:Hrest; [|done].
        simpl in Hrun. simplify_eq.
        apply IH in Hrest as (Hr & Hcalls & Hsent);
          [|destruct retryable; lia].
        split; [destruct retryable; lia|].
        split.
        { intros c Hin. apply elem_of_cons in Hin as [->|Hin]; [by eexists|].
          by apply Hcalls. }
        intros Hpos. change (written (c_write fd [] :: tr1))
          with ([] :: written tr1). simpl. apply Hsent.
        destruct Hpos as [?|?]; [by left|lia].
      * destruct (send_key_loop fd buf writes rtc (ntw - rc) (wofs + rc))
          as [[rtc1 tr1]|] eqn:Hrest; [|done].
        simpl in Hrun. simplify_eq.
        apply IH in Hrest as (Hr & Hcalls & Hsent); [|done].
        split; [done|]. split.
        { intros c Hin. apply elem_of_cons in Hin as [->|Hin]; [by eexists|].
          by apply Hcalls. }
        intros Hpos.
        change (written (c_write fd ?d :: tr1)) with (d :: written tr1).
        cbn [concat]. rewrite Hsent by (destruct Hpos; [by left|lia]).
        rewrite <-drop_drop. apply take_split.
    + simplify_eq. split; [lia|]. split; [intros c Hin; invert_in Hin|].
      intros Hpos. apply andb_false_iff in Hc as [Hc|Hc];
        apply bool_decide_eq_false in Hc.
      * assert (rtc' = 0) by lia. destruct Hpos as [?| ->]; [lia|done].
      * assert (ntw = 0%nat) as -> by lia. done.
Qed.

(** X14: whatever the socket does with the [write] calls - short writes,
    writes of nothing, errors - when [send_key] returns with the record
    still alive, the pieces it wrote, put together, are exactly the segment
    key followed by a newline, the record is ready and has an audio feed;
    otherwise it has freed the record.  All writes go to the record's own
    socket. *)
Theorem send_key_outcome K io tgt tgt' tr :
  (strlen (key (shm tgt)) + 1 < PP_SHMPAGE_SHMKEYLIM K)%nat →
  freed tgt = false →
  send_key K io tgt = Some (tgt', tr) →
  (∀ fd d, c_write fd d ∈ tr → fd = sockout_fd tgt)
  ∧ (freed tgt' = false →
     concat (written tr) = bytes_of_string (key (shm tgt)) ++ [newline]
     ∧ feed tgt' = ff_emptyframe ∧ has_audio tgt' = true)
  ∧ (freed tgt' = true →
     feed tgt' = feed tgt ∧ last tr = Some c_frameserver_free).
Proof.
  intros Hfit Hfr. unfold send_key.
  rewrite snprintf_line_fits by done.
  set (buf := (bytes_of_string (key (shm tgt)) ++ [newline]) ++ _).
  cbn [sockout_fd set_sockinbuf].
  destruct (send_key_loop _ _ _ _ _ _) as [[rtc tr0]|] eqn:Hloop; [|done].
  apply send_key_loop_sent in Hloop as (Hrtc & Hcalls & Hsent); [|lia].
  cbn [mbind option_bind]. case_bool_decide as Hz; intros; simplify_eq.
  - split; [|split].
    + intros fd d Hin.
      apply elem_of_app in Hin as [Hin|Hin]; [|invert_in Hin].
      apply elem_of_cons in Hin as [?|Hin]; [done|].
      apply elem_of_cons in Hin as [?|Hin]; [done|].
      apply Hcalls in Hin as [? ?]. by simplify_eq.
    + done.
    + intros _. split; [done|].
      by rewrite last_app.
  - split; [|split].
    + intros fd d Hin.
      apply elem_of_app in Hin as [Hin|Hin]; [|invert_in Hin].
      apply elem_of_cons in Hin as [?|Hin]; [done|].
      apply elem_of_cons in Hin as [?|Hin]; [done|].
      apply Hcalls in Hin as [? ?]. by simplify_eq.
    + intros _. split; [|done].
      rewrite written_app. change (written [_; _]) with (@nil (list Z)).
      change (written (c_warning :: c_fcntl_nonblock ?fd :: ?l))
        with (written l).
      rewrite app_nil_r, Hsent by (left; lia).
      rewrite drop_0. subst buf. apply take_app_length'.
      rewrite length_app, bytes_of_string_length. simpl. lia.
    + cbn [freed set_has_audio set_feed set_sockinbuf]. by rewrite Hfr.
Qed.

Lemma send_key_outcome_witness :
  ∃ tgt' tr,
    send_key linux_consts
      (io_ready None [write_err true; write_ok 5; write_ok 0; write_ok 7])
      tgt_open
    = Some (tgt', tr)
    ∧ concat (written tr) = bytes_of_string "/arcan_1_2m" ++ [newline]
    ∧ feed tgt' = ff_emptyframe ∧ has_audio tgt' = true.
Proof.
  eexists _, _. split; [reflexivity|].
  eapply (send_key_outcome linux_consts
            (io_ready None [write_err true; write_ok 5; write_ok 0; write_ok 7])
            tgt_open).
  - vm_compute. lia.
  - reflexivity.
  - reflexivity.
  - reflexivity.
Defined.

Lemma find_zero_rtc fd buf ws ntw wofs :
  send_key_loop fd buf ws 0 ntw wofs = Some (0, []).
Proof. by destruct ws. Qed.

Lemma send_key_loop_retries fd buf ws ntw wofs :
  ntw ≠ 0%nat →
  ∀ n rtc, Z.of_nat n ≤ rtc →
    send_key_loop fd buf (replicate n (write_err true) ++ ws) rtc ntw wofs
    = ('(r, tr) ← send_key_loop fd buf ws (rtc - Z.of_nat n) ntw wofs;
       Some (r, replicate n (c_write fd []) ++ tr)).
Proof.
  intros Hntw. induction n as [|n IH]; intros rtc Hle.
  { simpl. rewrite Z.sub_0_r.
    by destruct (send_key_loop fd buf ws rtc ntw wofs) as [[? ?]|]. }
  cbn [replicate app send_key_loop].
  rewrite !bool_decide_eq_true_2 by (done || lia). cbn [andb].
  rewrite IH by lia.
  replace (rtc - 1 - Z.of_nat n) with (rtc - Z.of_nat (S n)) by lia.
  by destruct (send_key_loop fd buf ws _ ntw wofs) as [[? ?]|].
Qed.

(** X15: the retry budget of [send_key].  Up to nine [write] calls in a row
    may fail with EAGAIN, EWOULDBLOCK or EINTR before the line goes out, and
    the handshake still completes; the tenth such failure in a row, or a
    single failure with any other error, frees the record with nothing
    written, after exactly that many [write] calls. *)
Theorem send_key_retry_budget K io tgt n ws :
  (strlen (key (shm tgt)) + 1 < PP_SHMPAGE_SHMKEYLIM K)%nat →
  freed tgt = false →
  ((n < 10)%nat →
   io_writes io = replicate n (write_err true)
                  ++ write_ok (S (strlen (key (shm tgt)))) :: ws →
   ∃ tgt' tr, send_key K io tgt = Some (tgt', tr)
              ∧ freed tgt' = false ∧ feed tgt' = ff_emptyframe
              ∧ write_calls tr = S n)
  ∧ (io_writes io = replicate 10 (write_err true) ++ ws →
     ∃ tgt' tr, send_key K io tgt = Some (tgt', tr)
                ∧ freed tgt' = true ∧ concat (written tr) = []
                ∧ write_calls tr = 10%nat)
  ∧ ((n < 10)%nat →
     io_writes io = replicate n (write_err true) ++ write_err false :: ws →
     ∃ tgt' tr, send_key K io tgt = Some (tgt', tr)
                ∧ freed tgt' = true ∧ concat (written tr) = []
                ∧ write_calls tr = S n).
Proof.
  intros Hfit Hfr. unfold send_key, write_calls.
  rewrite snprintf_line_fits by done.
  set (buf := (bytes_of_string (key (shm tgt)) ++ [newline]) ++ _).
  cbn [sockout_fd set_sockinbuf].
  assert (∀ k l, written (replicate k (c_write (sockout_fd tgt) []) ++ l)
                 = replicate k [] ++ written l) as Hwr.
  { intros k l. induction k as [|k IHk]; [done|]. simpl. by rewrite <-IHk. }
  assert (∀ k (l : list (list Z)), concat (replicate k [] ++ l) = concat l)
    as Hcc.
  { intros k l. induction k as [|k IHk]; [done|]. simpl. by rewrite IHk. }
  split; [|split].
  - intros Hn ->. rewrite send_key_loop_retries by (done || lia).
    cbn [send_key_loop].
    rewrite !bool_decide_eq_true_2 by (done || lia). cbn [andb].
    rewrite Nat.sub_diag, send_key_loop_done. cbn [mbind option_bind].
    rewrite bool_decide_eq_false_2 by lia.
    eexists _, _. split; [reflexivity|].
    split; [by rewrite <-Hfr|]. split; [done|].
    rewrite written_app.
    change (written (c_warning :: c_fcntl_nonblock ?fd :: ?l))
      with (written l).
    rewrite Hwr, !length_app, length_replicate. simpl. lia.
  - intros ->. rewrite send_key_loop_retries by (done || lia).
    replace (10 - Z.of_nat 10) with 0 by lia.
    rewrite find_zero_rtc. cbn [mbind option_bind].
    rewrite bool_decide_eq_true_2 by lia.
    eexists _, _. split; [reflexivity|]. split; [done|].
    rewrite written_app.
    change (written (c_warning :: c_fcntl_nonblock ?fd :: ?l))
      with (written l).
    change (written [_; _]) with (@nil (list Z)).
    rewrite Hwr, !app_nil_r, length_replicate.
    split; [|done]. rewrite <-(app_nil_r (replicate 10 [])). apply Hcc.
  - intros Hn ->. rewrite send_key_loop_retries by (done || lia).
    cbn [send_key_loop].
    rewrite !bool_decide_eq_true_2 by (done || lia). cbn [andb].
    rewrite find_zero_rtc. cbn [mbind option_bind].
    rewrite bool_decide_eq_true_2 by lia.
    eexists _, _. split; [reflexivity|]. split; [done|].
    rewrite written_app.
    change (written (c_warning :: c_fcntl_nonblock ?fd :: ?l))
      with (written l).
    change (written [_; _]) with (@nil (list Z)).
    rewrite Hwr, !app_nil_r, Hcc, length_app, length_replicate. simpl.
    split; [done|lia].
Qed.

Lemma send_key_retry_budget_witness :
  ∃ tgt' tr,
    send_key linux_consts
      (io_ready None (replicate 3 (write_err true) ++ [write_ok 12]))
      tgt_open
    = Some (tgt', tr)
    ∧ freed tgt' = false ∧ feed tgt' = ff_emptyframe
    ∧ write_calls tr = 4%nat.
Proof.
  refine (proj1 (send_key_retry_budget linux_consts
            (io_ready None (replicate 3 (write_err true) ++ [write_ok 12]))
            tgt_open 3 [] _ _) _ _).
  - vm_compute. lia.
  - reflexivity.
  - lia.
  - reflexivity.
Defined.
